(** * xcresult_extract.py: a shallow embedding and its properties

    The script reads an xcodebuild command line, locates the newest
    .xcresult bundle, asks xcresulttool for JSON documents and averages
    the performance measurements found in them.  Python values are
    modelled as follows: [str] as [string], a [dict] with string keys as
    [gmap string _], a [list] as [list], an exception as the left
    injection of a sum, [float] as an IEEE 754 binary64 number
    ([spec_float] with precision 53 and maximal exponent 1024). *)

From Stdlib Require Import ZArith List Ascii String Bool Lia.
From Stdlib Require Import Floats.SpecFloat.
From Stdlib Require Import Sorting.Sorted.
From stdpp Require Import base option list strings gmap fin_maps.

Set Warnings "-register-all".

Local Open Scope string_scope.
Local Open Scope Z_scope.

(** ** Exceptions and fallible computations *)

Inductive exn : Type :=
| ValueError (msg : string)
| LookupError (msg : string)
| KeyError (key : string)
| IndexError
| TypeError
| AttributeError
| ZeroDivisionError
| OverflowError
| OSError
| CalledProcessError
| SystemExit (code : Z).

(** A computation either raises or returns. *)
Definition res (A : Type) : Type := exn + A.

Definition raise {A : Type} (e : exn) : res A := inl e.
Definition ret {A : Type} (a : A) : res A := inr a.

Definition bind {A B : Type} (m : res A) (k : A → res B) : res B :=
  match m with
  | inl e => inl e
  | inr a => k a
  end.

Notation "'let!' x ':=' m 'in' k" := (bind m (λ x, k))
  (at level 10, x name, m at level 100, k at level 200,
   format "'[v' 'let!'  x  ':='  m  'in'  '/' k ']'").

(** ** String primitives used by the script *)

(** [s.startswith('-')] *)
Definition startswith_dash (s : string) : bool :=
  match s with
  | String c _ => bool_decide (c = "-"%char)
  | EmptyString => false
  end.

(** ** The argument extractor *)

(** [INTERESTING_FLAGS] *)
Definition INTERESTING_FLAGS : gset string :=
  {[ "-resultBundlePath"; "-scheme"; "-project" ]}.

(** The loop state of [parse_xcodebuild_flags]: the dictionary built so
    far and the pending [key]. *)
Definition flag_state : Type := gmap string string * option string.

(** One iteration of [for arg in args]. *)
Definition flag_step (st : flag_state) (arg : string) : flag_state :=
  let '(result, key) := st in
  if startswith_dash arg then
    if bool_decide (arg ∈ INTERESTING_FLAGS) then (result, Some arg)
    else (result, key)
  else
    match key with
    | Some k => (<[k := arg]> result, None)
    | None => (result, key)
    end.

Definition flag_run (st : flag_state) (args : list string) : flag_state :=
  fold_left flag_step args st.

Definition parse_xcodebuild_flags (args : list string) : gmap string string :=
  fst (flag_run (∅, None) args).

(** ** Paths (posixpath) *)

(** [s.rfind(c)]: the greatest index of [c] in [s], or [-1]. *)
Fixpoint rfind_from (c : ascii) (s : string) (i acc : Z) : Z :=
  match s with
  | EmptyString => acc
  | String a r => rfind_from c r (i + 1) (if bool_decide (a = c) then i else acc)
  end.

Definition rfind (c : ascii) (s : string) : Z := rfind_from c s 0 (-1).

(** [s[:n]] and [s[n:]] for [0 <= n]. *)
Fixpoint str_take (n : nat) (s : string) : string :=
  match n, s with
  | S k, String a r => String a (str_take k r)
  | _, _ => EmptyString
  end.

Fixpoint str_drop (n : nat) (s : string) : string :=
  match n, s with
  | S k, String _ r => str_drop k r
  | _, _ => s
  end.

(** [os.path.basename(p)]: [p[p.rfind('/') + 1:]]. *)
Definition basename (p : string) : string :=
  str_drop (Z.to_nat (rfind "/" p + 1)) p.

(** The [while] loop of [genericpath._splitext]: is there a character
    other than the dot among the [count] characters from [start] on? *)
Fixpoint has_non_dot (p : string) (start count : nat) : bool :=
  match count with
  | O => false
  | S k =>
      match String.get start p with
      | Some "."%char => has_non_dot p (S start) k
      | _ => true
      end
  end.

(** [os.path.splitext(p)] *)
Definition splitext (p : string) : string * string :=
  let sepIndex := rfind "/" p in
  let dotIndex := rfind "." p in
  if (sepIndex <? dotIndex)
     && has_non_dot p (Z.to_nat (sepIndex + 1)) (Z.to_nat (dotIndex - (sepIndex + 1)))
  then (str_take (Z.to_nat dotIndex) p, str_drop (Z.to_nat dotIndex) p)
  else (p, "").

(** [s.endswith('/')] *)
Fixpoint endswith_slash (s : string) : bool :=
  match s with
  | EmptyString => false
  | String c EmptyString => bool_decide (c = "/"%char)
  | String _ r => endswith_slash r
  end.

(** [os.path.join(a, b)] *)
Definition path_join (a b : string) : string :=
  if String.prefix "/" b then b
  else if bool_decide (a = "") || endswith_slash a then a ++ b
  else a ++ "/" ++ b.

Definition project_from_project_path (path : string) : res string :=
  let '(root, ext) := splitext (basename path) in
  if bool_decide (ext = ".xcodeproj") then ret root
  else raise (ValueError (path ++ " is not a valid project path")).

(** ** Floating point: IEEE 754 binary64 *)

Definition float : Type := spec_float.
Definition prec : Z := 53.
Definition emax : Z := 1024.

Definition fadd : float → float → float := SFadd prec emax.
Definition fdiv : float → float → float := SFdiv prec emax.

(** The ratio [n / d] of two integers, [0 <= n] and [0 < d], rounded to
    the nearest float, ties to even, with the sign [neg]. *)
Definition round_ratio (neg : bool) (n d : Z) : float :=
  if n =? 0 then S754_zero neg
  else
    let '(q, e, l) := SFdiv_core_binary prec emax n 0 d 0 in
    binary_round_aux prec emax neg q e l.

(** [n * 10^e], rounded. *)
Definition round_decimal (neg : bool) (n e : Z) : float :=
  if 0 <=? e then round_ratio neg (n * 10 ^ e) 1
  else round_ratio neg n (10 ^ (- e)).

(** The integer [z] rounded to the nearest float; infinite when [z] is
    too large. *)
Definition float_of_Z (z : Z) : float :=
  round_ratio (z <? 0) (Z.abs z) 1.

Definition is_finite (f : float) : bool :=
  match f with
  | S754_zero _ | S754_finite _ _ _ => true
  | _ => false
  end.

Definition float_eqb (x y : float) : bool :=
  match x, y with
  | S754_zero a, S754_zero b => Bool.eqb a b
  | S754_infinity a, S754_infinity b => Bool.eqb a b
  | S754_nan, S754_nan => true
  | S754_finite a m e, S754_finite b n f => Bool.eqb a b && Pos.eqb m n && Z.eqb e f
  | _, _ => false
  end.

(** *** [float(s)] for a string [s]

    The grammar of [float] on ASCII strings: surrounding whitespace is
    stripped; then an optional sign; then [inf], [infinity] or [nan] in
    any case, or decimal digits with an optional fraction and an optional
    exponent.  Groups of digits may hold single underscores between
    digits.  The value is the decimal number rounded to the nearest
    float, ties to even. *)

Definition digit_of (c : ascii) : option Z :=
  let n := Z.of_N (N_of_ascii c) in
  if (48 <=? n) && (n <=? 57) then Some (n - 48) else None.

Definition is_space (c : ascii) : bool :=
  let n := Z.of_N (N_of_ascii c) in
  ((9 <=? n) && (n <=? 13)) || ((28 <=? n) && (n <=? 32)).

Fixpoint lstrip (s : string) : string :=
  match s with
  | String c r => if is_space c then lstrip r else s
  | EmptyString => EmptyString
  end.

Definition strip (s : string) : string :=
  String.rev (lstrip (String.rev (lstrip s))).

(** The rest of a group of digits, after its first digit: the number
    read so far, the count of digits read, and what follows the group. *)
Fixpoint digit_run (s : string) (acc cnt : Z) : Z * Z * string :=
  match s with
  | String c r =>
      match digit_of c with
      | Some d => digit_run r (10 * acc + d) (cnt + 1)
      | None =>
          match c, r with
          | "_"%char, String c' r' =>
              match digit_of c' with
              | Some d => digit_run r' (10 * acc + d) (cnt + 1)
              | None => (acc, cnt, s)
              end
          | _, _ => (acc, cnt, s)
          end
      end
  | EmptyString => (acc, cnt, s)
  end.

(** An optional group of digits continuing the number [acc]. *)
Definition digits_opt (s : string) (acc : Z) : Z * Z * string :=
  match s with
  | String c r =>
      match digit_of c with
      | Some d => digit_run r (10 * acc + d) 1
      | None => (acc, 0, s)
      end
  | EmptyString => (acc, 0, s)
  end.

(** An optional sign: is it a minus, and the rest. *)
Definition sign_opt (s : string) : bool * string :=
  match s with
  | String "-"%char r => (true, r)
  | String "+"%char r => (false, r)
  | _ => (false, s)
  end.

(** The exponent part: [e] or [E], an optional sign, a group of digits. *)
Definition exponent_opt (s : string) : option (Z * string) :=
  match s with
  | String c r =>
      if bool_decide (c = "e"%char) || bool_decide (c = "E"%char) then
        let '(neg, r1) := sign_opt r in
        let '(n, cnt, r2) := digits_opt r1 0 in
        if cnt =? 0 then None
        else Some (if neg then - n else n, r2)
      else Some (0, s)
  | EmptyString => Some (0, s)
  end.

Definition lower (c : ascii) : ascii :=
  let n := N_of_ascii c in
  if ((65 <=? n) && (n <=? 90))%N then ascii_of_N (n + 32) else c.

Fixpoint lower_string (s : string) : string :=
  match s with
  | String c r => String (lower c) (lower_string r)
  | EmptyString => EmptyString
  end.

Definition float_of_string (s : string) : option float :=
  let '(neg, body) := sign_opt (strip s) in
  let l := lower_string body in
  if bool_decide (l = "inf") || bool_decide (l = "infinity") then Some (S754_infinity neg)
  else if bool_decide (l = "nan") then Some S754_nan
  else
    let '(n1, c1, r1) := digits_opt body 0 in
    let '(n2, c2, r2) :=
      match r1 with
      | String "."%char r => digits_opt r n1
      | _ => (n1, 0, r1)
      end in
    if c1 + c2 =? 0 then None
    else
      match exponent_opt r2 with
      | Some (e, EmptyString) => Some (round_decimal neg n2 (e - c2))
      | _ => None
      end.

(** *** Decimal rendering: [str(int)], ["{:.2f}".format(x)] and [str(float)] *)

Definition digit_char (d : Z) : ascii := ascii_of_N (Z.to_N (48 + d)).

Fixpoint Z_digits_go (fuel : nat) (n : Z) (acc : string) : string :=
  match fuel with
  | O => acc
  | S k =>
      let acc' := String (digit_char (n mod 10)) acc in
      if n <? 10 then acc' else Z_digits_go k (n / 10) acc'
  end.

(** The decimal digits of [n], for [0 <= n]. *)
Definition Z_digits (n : Z) : string :=
  Z_digits_go (S (Z.to_nat (Z.log2 n))) n "".

Fixpoint zeros (n : nat) : string :=
  match n with
  | O => ""
  | S k => String "0" (zeros k)
  end.

(** The exact value [m * 2^e] of a finite float as a fraction. *)
Definition ratio_of (m : positive) (e : Z) : Z * Z :=
  if 0 <=? e then (Z.pos m * 2 ^ e, 1) else (Z.pos m, 2 ^ (- e)).

(** [a / b] rounded to the nearest integer, ties to even. *)
Definition div_half_even (a b : Z) : Z :=
  let q := a / b in
  match (2 * (a mod b)) ?= b with
  | Lt => q
  | Gt => q + 1
  | Eq => if Z.even q then q else q + 1
  end.

Definition sign_string (neg : bool) : string := if neg then "-" else "".

(** ["{:.2f}".format(x)] *)
Definition format_2f (x : float) : string :=
  match x with
  | S754_nan => "nan"
  | S754_infinity s => sign_string s ++ "inf"
  | S754_zero s => sign_string s ++ "0.00"
  | S754_finite s m e =>
      let '(n, d) := ratio_of m e in
      let r := div_half_even (100 * n) d in
      sign_string s ++ Z_digits (r / 100) ++ "."
        ++ String (digit_char (r / 10 mod 10)) (String (digit_char (r mod 10)) "")
  end.

(** Is [n / d < 10^k]? *)
Definition below_pow10 (n d k : Z) : bool :=
  if 0 <=? k then n <? d * 10 ^ k else n * 10 ^ (- k) <? d.

(** The least [k], from [k] on, with [n / d < 10^k]. *)
Fixpoint decimal_exponent (fuel : nat) (n d k : Z) : Z :=
  match fuel with
  | O => k
  | S f => if below_pow10 n d k then k else decimal_exponent f n d (k + 1)
  end.

(** The shortest decimal [D * 10^s] that reads back as the float [x] of
    value [n / d], where [k] is the decimal exponent of [x]: decimals of
    [i] digits are tried for [i = 1, 2, ...], and of two that read back
    the nearer to [x] is taken. *)
Fixpoint shortest_go (fuel : nat) (x : float) (n d k i : Z) : Z * Z :=
  let s := k - i in
  let '(a, b) := if 0 <=? s then (n, d * 10 ^ s) else (n * 10 ^ (- s), d) in
  let lo := a / b in
  let hi := lo + 1 in
  match fuel with
  | O => (div_half_even a b, s)
  | S f =>
      if a mod b =? 0 then (lo, s)
      else
        let ok_lo := float_eqb (round_decimal false lo s) x in
        let ok_hi := float_eqb (round_decimal false hi s) x in
        match ok_lo, ok_hi with
        | true, true => (div_half_even a b, s)
        | true, false => (lo, s)
        | false, true => (hi, s)
        | false, false => shortest_go f x n d k (i + 1)
        end
  end.

Fixpoint strip_zeros (fuel : nat) (D s : Z) : Z * Z :=
  match fuel with
  | O => (D, s)
  | S f => if (D mod 10 =? 0) && (0 <? D) then strip_zeros f (D / 10) (s + 1) else (D, s)
  end.

(** The digits of the shortest decimal and the position of its decimal
    point: the value is [0.d1d2...dL * 10^decpt]. *)
Definition shortest_digits (m : positive) (e : Z) : string * Z :=
  let '(n, d) := ratio_of m e in
  let k := decimal_exponent 700 n d (-330) in
  let '(D0, s0) := shortest_go 16 (S754_finite false m e) n d k 1 in
  let '(D, s) := strip_zeros 20 D0 s0 in
  let ds := Z_digits D in
  (ds, s + Z.of_nat (String.length ds)).

(** [repr(x)], which is [str(x)], for a float. *)
Definition float_repr (x : float) : string :=
  match x with
  | S754_nan => "nan"
  | S754_infinity s => sign_string s ++ "inf"
  | S754_zero s => sign_string s ++ "0.0"
  | S754_finite s m e =>
      let '(ds, decpt) := shortest_digits m e in
      let L := Z.of_nat (String.length ds) in
      sign_string s ++
      if (decpt <=? -4) || (16 <? decpt) then
        let ex := decpt - 1 in
        let exd := Z_digits (Z.abs ex) in
        str_take 1 ds ++ (if 1 <? L then "." ++ str_drop 1 ds else "")
          ++ "e" ++ (if ex <? 0 then "-" else "+")
          ++ (if Z.abs ex <? 10 then "0" else "") ++ exd
      else if decpt <=? 0 then "0." ++ zeros (Z.to_nat (- decpt)) ++ ds
      else if L <=? decpt then ds ++ zeros (Z.to_nat (decpt - L)) ++ ".0"
      else str_take (Z.to_nat decpt) ds ++ "." ++ str_drop (Z.to_nat decpt) ds
  end.

(** ** JSON documents, as [json.loads] returns them

    An object is a [dict] with string keys, an array a [list]; [None]
    is [JNull]. *)

Inductive json : Type :=
| JNull
| JBool (b : bool)
| JInt (z : Z)
| JFloat (f : float)
| JStr (s : string)
| JArr (l : list json)
| JObj (m : gmap string json).

(** The characters of a string, as [for c in s] yields them. *)
Fixpoint chars (s : string) : list string :=
  match s with
  | EmptyString => []
  | String c r => String c "" :: chars r
  end.

(** [x[k]] for a string [k]. *)
Definition getitem_key (x : json) (k : string) : res json :=
  match x with
  | JObj m =>
      match m !! k with
      | Some v => ret v
      | None => raise (KeyError k)
      end
  | _ => raise TypeError
  end.

(** [x[i]] for an integer [i]; a negative [i] counts from the end. *)
Definition getitem_idx (x : json) (i : Z) : res json :=
  match x with
  | JArr l =>
      let j := if i <? 0 then i + Z.of_nat (length l) else i in
      if j <? 0 then raise IndexError
      else
        match l !! Z.to_nat j with
        | Some v => ret v
        | None => raise IndexError
        end
  | JStr s =>
      let l := chars s in
      let j := if i <? 0 then i + Z.of_nat (length l) else i in
      if j <? 0 then raise IndexError
      else
        match l !! Z.to_nat j with
        | Some c => ret (JStr c)
        | None => raise IndexError
        end
  | JObj _ => raise (KeyError (sign_string (i <? 0) ++ Z_digits (Z.abs i)))
  | _ => raise TypeError
  end.

(** [x.get(k)] *)
Definition py_get (x : json) (k : string) : res json :=
  match x with
  | JObj m => ret (default JNull (m !! k))
  | _ => raise AttributeError
  end.

Definition is_zero (f : float) : bool :=
  match f with
  | S754_zero _ => true
  | _ => false
  end.

(** The truth value of [x], as [if x:] tests it. *)
Definition truthy (x : json) : bool :=
  match x with
  | JNull => false
  | JBool b => b
  | JInt z => negb (z =? 0)
  | JFloat f => negb (is_zero f)
  | JStr s => negb (bool_decide (s = ""))
  | JArr l => negb (bool_decide (l = []))
  | JObj m => negb (bool_decide (m = ∅))
  end.

(** The items [for v in x] runs over; a [dict] yields its keys. *)
Definition py_iter (x : json) : res (list json) :=
  match x with
  | JArr l => ret l
  | JStr s => ret (JStr <$> chars s)
  | JObj m => ret (JStr <$> (map_to_list m).*1)
  | _ => raise TypeError
  end.

(** [len(x)] *)
Definition py_len (x : json) : res Z :=
  match x with
  | JArr l => ret (Z.of_nat (length l))
  | JStr s => ret (Z.of_nat (String.length s))
  | JObj m => ret (Z.of_nat (size m))
  | _ => raise TypeError
  end.

(** The conversion of an [int] to a [float], which raises when the
    integer is too large. *)
Definition float_of_int (z : Z) : res float :=
  let f := float_of_Z z in
  if is_finite f then ret f else raise OverflowError.

(** [float(x)] *)
Definition py_float (x : json) : res float :=
  match x with
  | JStr s =>
      match float_of_string s with
      | Some f => ret f
      | None => raise (ValueError ("could not convert string to float: " ++ s))
      end
  | JInt z => float_of_int z
  | JFloat f => ret f
  | JBool b => ret (float_of_Z (if b then 1 else 0))
  | _ => raise TypeError
  end.

(** [int(s)] for a string [s]: whitespace around, an optional sign, a
    group of digits. *)
Definition int_of_string (s : string) : res Z :=
  let '(neg, body) := sign_opt (strip s) in
  match digits_opt body 0 with
  | (n, cnt, EmptyString) =>
      if cnt =? 0 then raise (ValueError ("invalid literal for int(): " ++ s))
      else ret (if neg then - n else n)
  | _ => raise (ValueError ("invalid literal for int(): " ++ s))
  end.

(** [int(x)] *)
Definition py_int (x : json) : res Z :=
  match x with
  | JStr s => int_of_string s
  | JInt z => ret z
  | JBool b => ret (if b then 1 else 0)
  | JFloat (S754_finite s m e) =>
      let '(n, d) := ratio_of m e in ret (if s then - (n / d) else n / d)
  | JFloat (S754_zero _) => ret 0
  | JFloat S754_nan => raise (ValueError "cannot convert float NaN to integer")
  | JFloat (S754_infinity _) => raise OverflowError
  | _ => raise TypeError
  end.

(** [a + b] where [a] is a string literal: [b] must be a string. *)
Definition str_add (a : string) (b : json) : res string :=
  match b with
  | JStr s => ret (a ++ s)
  | _ => raise TypeError
  end.

(** [sep.join(items)]: every item must be a string. *)
Fixpoint py_join (sep : string) (items : list json) : res string :=
  match items with
  | [] => ret ""
  | [JStr s] => ret s
  | JStr s :: rest => let! t := py_join sep rest in ret (s ++ sep ++ t)
  | _ :: _ => raise TypeError
  end.

(** [s.split(',')] *)
Fixpoint split_comma (s : string) : list string :=
  match s with
  | EmptyString => [""]
  | String c r =>
      if bool_decide (c = ","%char) then "" :: split_comma r
      else
        match split_comma r with
        | w :: ws => String c w :: ws
        | [] => [String c ""]
        end
  end.

(** ** The metric aggregator *)

(** The value of the variable [value_sum]: the integer literal [0] at
    first, a [float] after the first addition. *)
Inductive number : Type :=
| NInt (z : Z)
| NFloat (f : float).

Definition to_float (a : number) : res float :=
  match a with
  | NInt z => float_of_int z
  | NFloat f => ret f
  end.

(** [a + f] for a float [f]. *)
Definition num_add (a : number) (f : float) : res number :=
  let! x := to_float a in
  ret (NFloat (fadd x f)).

(** [a / n] for an integer [n]: the true division of Python. *)
Definition truediv (a : number) (n : Z) : res float :=
  if n =? 0 then raise ZeroDivisionError
  else
    match a with
    | NInt z =>
        let q := round_ratio (xorb (z <? 0) (n <? 0)) (Z.abs z) (Z.abs n) in
        if is_finite q then ret q else raise OverflowError
    | NFloat f =>
        let! d := float_of_int n in
        ret (fdiv f d)
    end.

(** [for value in values: value_sum += float(value.get('_value'))] *)
Fixpoint sum_values (values : list json) (value_sum : number) : res number :=
  match values with
  | [] => ret value_sum
  | value :: rest =>
      let! v := py_get value "_value" in
      let! f := py_float v in
      let! s := num_add value_sum f in
      sum_values rest s
  end.

(** The body of [for metric in metrics]: the string appended for one
    group of measurements. *)
Definition metric_output (metric : json) : res string :=
  let! measurement := py_get metric "measurements" in
  let! values := py_get measurement "_values" in
  let! items := py_iter values in
  let! value_sum := sum_values items (NInt 0) in
  let! n := py_len values in
  let! q := truediv value_sum n in
  ret (float_repr q).

Fixpoint collect_metrics (metrics : list json) (result : list json) : res (list json) :=
  match metrics with
  | [] => ret result
  | metric :: rest =>
      let! output := metric_output metric in
      collect_metrics rest (result ++ [JStr output])%list
  end.

(** [collect_log_output(activity_log, result)]: the list [result] after
    the call. *)
Definition collect_log_output (activity_log : json) (result : list json) : res (list json) :=
  let! test_name := py_get activity_log "identifier" in
  let! result :=
    if truthy test_name then
      let! v := getitem_key test_name "_value" in
      ret (result ++ [v])%list
    else ret result in
  let! duration := py_get activity_log "duration" in
  let! result :=
    if truthy duration then
      let! v := getitem_key duration "_value" in
      let! f := py_float v in
      ret (result ++ [JStr (format_2f f)])%list
    else ret result in
  let! performance_metrics := py_get activity_log "performanceMetrics" in
  match performance_metrics with
  | JNull => ret result
  | _ =>
      let! metrics := py_get performance_metrics "_values" in
      let! ms := py_iter metrics in
      collect_metrics ms result
  end.

(** The part of [export_log] after the document is fetched. *)
Definition render_log (contents : json) : res string :=
  let! result := collect_log_output contents [] in
  py_join "," result.

(** ** The world outside: the file system and xcresulttool *)

(** What the script observes of its environment.  [check_output cmd] is
    the parsed JSON that the command prints, or the exception of a
    failed command or of malformed output.  A modification time is the
    number [os.path.getmtime] returns; only its order matters. *)
Record world : Type := World {
  listdir : string → res (list string);
  getmtime : string → res Z;
  check_output : list string → res json;
  derived_data : string
}.

(** What is written to standard output: a text, or the [repr] of a
    list or of a dictionary handed to [print]. *)
Inductive printed : Type :=
| Text (s : string)
| ReprList (l : list json)
| ReprDict (d : gmap string string).

(** The effects of a run, in order.  Logging is left out. *)
Inductive event : Type :=
| Stdout (p : printed)
| Run (cmd : list string)
| WriteFile (name : string) (data : list (gmap string string)).

(** An effectful computation: the events it causes and its outcome. *)
Definition io (A : Type) : Type := list event * res A.

Definition io_ret {A : Type} (a : A) : io A := ([], inr a).
Definition lift {A : Type} (r : res A) : io A := ([], r).
Definition emit (e : event) : io unit := ([e], inr tt).

Definition io_bind {A B : Type} (m : io A) (k : A → io B) : io B :=
  match m with
  | (t, inl e) => (t, inl e)
  | (t, inr a) => let '(t', r) := k a in ((t ++ t')%list, r)
  end.

Notation "'do!' x ':=' m 'in' k" := (io_bind m (λ x, k))
  (at level 10, x name, m at level 100, k at level 200,
   format "'[v' 'do!'  x  ':='  m  'in'  '/' k ']'").

(** A step of a chain of subscripts. *)
Inductive selector : Type :=
| Key (k : string)
| Idx (i : Z).

Definition getitem (x : json) (s : selector) : res json :=
  match s with
  | Key k => getitem_key x k
  | Idx i => getitem_idx x i
  end.

(** [x[s1][s2]...[sn]] *)
Fixpoint descend (x : json) (path : list selector) : res json :=
  match path with
  | [] => ret x
  | s :: rest => let! y := getitem x s in descend y rest
  end.

(** A value used where only a string will do: an argument of a command,
    an operand of [+] with a string. *)
Definition as_str (x : json) : res string :=
  match x with
  | JStr s => ret s
  | _ => raise TypeError
  end.

(** [range(n)] *)
Definition range (n : Z) : list Z := Z.of_nat <$> seq 0 (Z.to_nat n).

Fixpoint mapM {A B : Type} (f : A → res B) (l : list A) : res (list B) :=
  match l with
  | [] => ret []
  | a :: rest =>
      let! b := f a in
      let! bs := mapM f rest in
      ret (b :: bs)
  end.

(** The compiled pattern [re.escape(project) + '-'], matched at the
    start of an entry. *)
Definition project_prefix (project : string) (entry : string) : bool :=
  String.prefix (project ++ "-") entry.

Fixpoint skip_non_dash (s : string) : string :=
  match s with
  | String c r => if bool_decide (c = "-"%char) then s else skip_non_dash r
  | EmptyString => EmptyString
  end.

(** The compiled pattern of [find_xcresult_path], matched at the start
    of an entry: a group of any number of characters other than the
    dash, a dash, the escaped scheme, a dash.  The group takes every
    character before the first dash; a shorter group is followed by a
    character that is no dash, so nothing else can match. *)
Definition scheme_prefix (scheme : string) (entry : string) : bool :=
  String.prefix ("-" ++ scheme ++ "-") (skip_non_dash entry).

(** The chain of subscripts of [find_summary_id] below [action]. *)
Definition summary_path (ids : Z) : list selector :=
  [Key "testableSummaries"; Key "_values"; Idx 0;
   Key "tests"; Key "_values"; Idx 0;
   Key "subtests"; Key "_values"; Idx 0;
   Key "subtests"; Key "_values"; Idx 0;
   Key "subtests"; Key "_values"; Idx ids;
   Key "summaryRef"; Key "id"; Key "_value"].

(** [dict(pairs)]: a later pair replaces an earlier one of the same key. *)
Definition dict_of (pairs : list (string * string)) : gmap string string :=
  fold_left (λ m p, <[p.1 := p.2]> m) pairs ∅.

(** [zip(a, b)] stops at the end of the shorter list. *)
Fixpoint zip_lists {A B : Type} (a : list A) (b : list B) : list (A * B) :=
  match a, b with
  | x :: a', y :: b' => (x, y) :: zip_lists a' b'
  | _, _ => []
  end.

Definition defaultValues : list string :=
  ["testName"; "Duration"; "Disk Local Writes"; "Clock Monotonic Time";
   "CPU Time"; "Memory Physical"; "CPU Instructions Retired";
   "Memory Peak Physical"; "CPU Cycles"].

(** The line feed that ends a line of output. *)
Definition newline : string := String (ascii_of_nat 10) "".

(** The module docstring, [__doc__]. *)
Definition usage : string :=
"Prints performance result test data from test runs captured in Apple .xcresult bundles.

USAGE: xcresult_extract.py -project <path> -scheme <scheme> [other flags...]

xcresult_extract.py finds and displays the log output associated with an xcodebuild
invocation. Pass your entire xcodebuild command-line as arguments to this script
and it will find the output associated with the most recent invocation.
".

(** ** The script, in a given world *)

Section Script.

Variable w : world.

(** The loop of [find_newest_matching_prefix] over the entries left,
    with the value of [result] so far. *)
Fixpoint newest_loop (path : string) (prefix : string → bool)
    (entries : list string) (result : option string) : res (option string) :=
  match entries with
  | [] => ret result
  | entry :: rest =>
      if prefix entry then
        let fq_entry := path_join path entry in
        match result with
        | None => newest_loop path prefix rest (Some fq_entry)
        | Some r =>
            let! result_mtime := getmtime w r in
            let! entry_mtime := getmtime w fq_entry in
            if result_mtime <? entry_mtime
            then newest_loop path prefix rest (Some fq_entry)
            else newest_loop path prefix rest result
        end
      else newest_loop path prefix rest result
  end.

Definition find_newest_matching_prefix (path : string) (prefix : string → bool)
    : res (option string) :=
  let! entries := listdir w path in
  newest_loop path prefix entries None.

Definition find_project_path (project : string) : res string :=
  let path := derived_data w in
  let! result := find_newest_matching_prefix path (project_prefix project) in
  match result with
  | None =>
      raise (LookupError ("Could not find project derived data for " ++ project ++ " in " ++ path))
  | Some r => ret r
  end.

Definition find_xcresult_path (project scheme : string) : res string :=
  let! project_path := find_project_path project in
  let bundle_dir := path_join project_path "Logs/Test" in
  let! xcresult := find_newest_matching_prefix bundle_dir (scheme_prefix scheme) in
  match xcresult with
  | None =>
      raise (LookupError ("Could not find xcresult bundle for " ++ scheme ++ " in " ++ bundle_dir))
  | Some r => ret r
  end.

(** [xcresulttool_json]: the command is run and its output parsed. *)
Definition xcresulttool_json (args : list string) : io json :=
  let cmd := (["xcrun"; "xcresulttool"] ++ args ++ ["--format"; "json"])%list in
  do! _ := emit (Run cmd) in
  lift (check_output w cmd).

Definition find_device_info (xcresult_path : string) : io json :=
  do! parsed := xcresulttool_json ["get"; "--path"; xcresult_path] in
  lift (descend parsed
    [Key "actions"; Key "_values"; Idx (-1);
     Key "runDestination"; Key "targetDeviceRecord"; Key "modelUTI"; Key "_value"]).

Definition find_test_count (xcresult_path : string) : io json :=
  do! parsed := xcresulttool_json ["get"; "--path"; xcresult_path] in
  lift (descend parsed [Key "metrics"; Key "testsCount"; Key "_value"]).

Definition find_test_id (xcresult_path : string) : io json :=
  do! parsed := xcresulttool_json ["get"; "--path"; xcresult_path] in
  lift (descend parsed
    [Key "actions"; Key "_values"; Idx (-1);
     Key "actionResult"; Key "testsRef"; Key "id"; Key "_value"]).

Definition find_summary_id (xcresult_path : string) (test_id : json) (tests_count : Z)
    : io (list json) :=
  do! id := lift (as_str test_id) in
  do! parsed := xcresulttool_json ["get"; "--path"; xcresult_path; "--id"; id] in
  do! action := lift (descend parsed [Key "summaries"; Key "_values"; Idx 0]) in
  do! resultDef := lift (mapM (λ ids, descend action (summary_path ids)) (range tests_count)) in
  do! _ := emit (Stdout (ReprList resultDef)) in
  io_ret resultDef.

Definition export_log (xcresult_path : string) (summary_id : json) : io string :=
  do! id := lift (as_str summary_id) in
  do! contents := xcresulttool_json ["get"; "--path"; xcresult_path; "--id"; id] in
  lift (render_log contents).

Definition writeDataToFile (data : list (gmap string string)) : io unit :=
  emit (WriteFile "data.txt" data).

(** The body of the loop of [main] for one summary identifier: the
    dictionary appended to [listData]. *)
Definition main_step (xcresult_path : string) (summary_id : json) : io (gmap string string) :=
  do! log := export_log xcresult_path summary_id in
  do! device_info := find_device_info xcresult_path in
  do! line := lift (let! d := as_str device_info in ret (d ++ "," ++ log ++ newline)) in
  do! _ := emit (Stdout (Text line)) in
  let data := split_comma log in
  let dictOfData := dict_of (zip_lists defaultValues data) in
  do! _ := emit (Stdout (ReprDict dictOfData)) in
  io_ret dictOfData.

Fixpoint main_loop (xcresult_path : string) (summary_id : list json)
    (listData : list (gmap string string)) : io (list (gmap string string)) :=
  match summary_id with
  | [] => io_ret listData
  | sumID :: rest =>
      do! dictOfData := main_step xcresult_path sumID in
      main_loop xcresult_path rest (listData ++ [dictOfData])%list
  end.

Definition flag (flags : gmap string string) (name : string) : res string :=
  match flags !! name with
  | Some v => ret v
  | None => raise (KeyError name)
  end.

Definition main (args : list string) : io unit :=
  match args with
  | [] =>
      do! _ := emit (Stdout (Text usage)) in
      lift (raise (SystemExit 1))
  | _ :: _ =>
      let flags := parse_xcodebuild_flags args in
      do! project_path := lift (flag flags "-project") in
      do! project := lift (project_from_project_path project_path) in
      do! scheme := lift (flag flags "-scheme") in
      do! xcresult_path :=
        match flags !! "-resultBundlePath" with
        | Some p => io_ret p
        | None => lift (find_xcresult_path project scheme)
        end in
      do! test_id := find_test_id xcresult_path in
      do! tests_count := find_test_count xcresult_path in
      do! line := lift (str_add "Number of Tests=" tests_count) in
      do! _ := emit (Stdout (Text (line ++ newline))) in
      do! n := lift (py_int tests_count) in
      do! summary_id := find_summary_id xcresult_path test_id n in
      do! listData := main_loop xcresult_path summary_id [] in
      writeDataToFile listData
  end.

End Script.

(** ** Predicates of the statements below *)

(** A token the extractor passes over: it starts with a dash and is no
    recognized flag. *)
Definition skipped (t : string) : Prop :=
  startswith_dash t = true ∧ t ∉ INTERESTING_FLAGS.

(** What holds of the dictionary and of the pending key after the
    tokens [args]. *)
Definition flag_inv (args : list string) (st : flag_state) : Prop :=
  (∀ k v, st.1 !! k = Some v →
     k ∈ INTERESTING_FLAGS ∧ startswith_dash v = false ∧
     ∃ l1 l2 l3, args = (l1 ++ k :: l2 ++ v :: l3)%list ∧ Forall skipped l2) ∧
  (∀ k, st.2 = Some k →
     k ∈ INTERESTING_FLAGS ∧
     ∃ l1 l2, args = (l1 ++ k :: l2)%list ∧ Forall skipped l2).

(** Does the character [c] occur in [s]? *)
Fixpoint str_in (c : ascii) (s : string) : bool :=
  match s with
  | EmptyString => false
  | String a r => bool_decide (a = c) || str_in c r
  end.

(** Is every character of [s] a dot? *)
Fixpoint all_dots (s : string) : bool :=
  match s with
  | EmptyString => true
  | String a r => bool_decide (a = "."%char) && all_dots r
  end.






(** The strings joined by commas. *)
Fixpoint join_comma (l : list string) : string :=
  match l with
  | [] => ""
  | [s] => s
  | s :: rest => s ++ "," ++ join_comma rest
  end.

(** The first two steps of [collect_log_output]: the test name and the
    duration. *)
Definition log_header (activity_log : json) (result : list json) : res (list json) :=
  let! test_name := py_get activity_log "identifier" in
  let! result :=
    if truthy test_name then
      let! v := getitem_key test_name "_value" in
      ret (result ++ [v])%list
    else ret result in
  let! duration := py_get activity_log "duration" in
  if truthy duration then
    let! v := getitem_key duration "_value" in
    let! f := py_float v in
    ret (result ++ [JStr (format_2f f)])%list
  else ret result.



(** The command that [xcresulttool_json] runs for the arguments [args]. *)
Definition tool_cmd (args : list string) : list string :=
  (["xcrun"; "xcresulttool"] ++ args ++ ["--format"; "json"])%list.



(** The modification times of [a] and [p], when both can be read, are in
    order. *)
Definition older_or_same (w : world) (a p : string) : Prop :=
  ∀ ta tp, getmtime w a = inr ta → getmtime w p = inr tp → ta <= tp.

(** No matching entry of [entries] in the directory [path] is newer
    than [p]. *)
Definition newest_among (w : world) (path : string) (prefix : string → bool)
    (entries : list string) (p : string) : Prop :=
  ∀ e, e ∈ entries → prefix e = true → older_or_same w (path_join path e) p.

(** The value of [result] in the loop of the locator is older than
    [te]. *)
Definition below (w : world) (te : Z) (acc : option string) : Prop :=
  match acc with
  | None => True
  | Some a => ∃ t, getmtime w a = inr t ∧ t < te
  end.

(** ** Sample documents *)

(** The object [{"_value": s}]. *)
Definition sample_value (s : string) : json := JObj {[ "_value" := JStr s ]}.

(** A group of measurements with the values [l]. *)
Definition sample_group (l : list string) : json :=
  JObj {[ "measurements" := JObj {[ "_values" := JArr (sample_value <$> l) ]} ]}.

(** An activity log with a test name, a duration and the groups [groups]. *)
Definition sample_log (name duration : string) (groups : list json) : json :=
  JObj (<[ "identifier" := sample_value name ]>
       (<[ "duration" := sample_value duration ]>
         {[ "performanceMetrics" := JObj {[ "_values" := JArr groups ]} ]})).

(** A world whose every command prints the document [doc]. *)
Definition sample_world (doc : json) : world :=
  {| listdir := λ _, raise OSError;
     getmtime := λ _, raise OSError;
     check_output := λ _, ret doc;
     derived_data := "/Users/me/Library/Developer/Xcode/DerivedData" |}.

(** The list [{"_values": l}]. *)
Definition sample_values (l : list json) : json := JObj {[ "_values" := JArr l ]}.

(** The description of a bundle: one action, the device, the identifier
    of the tests and the count of the tests. *)
Definition sample_bundle (device tests_id count : string) : json :=
  JObj (<[ "actions" := sample_values
             [JObj (<[ "runDestination" :=
                         JObj {[ "targetDeviceRecord" :=
                           JObj {[ "modelUTI" := sample_value device ]} ]} ]>
                     {[ "actionResult" :=
                         JObj {[ "testsRef" :=
                           JObj {[ "id" := sample_value tests_id ]} ]} ]})] ]>
        {[ "metrics" := JObj {[ "testsCount" := sample_value count ]} ]}).

(** A test with the summary identifier [id]. *)
Definition sample_test (id : string) : json :=
  JObj {[ "summaryRef" := JObj {[ "id" := sample_value id ]} ]}.

(** A group of tests with the sub-tests [l]. *)
Definition sample_suite (l : list json) : json :=
  JObj {[ "subtests" := sample_values l ]}.

(** The document of the tests of a bundle: below one summary, one
    testable summary, one test and one group, the suites [suites]. *)
Definition sample_summaries (suites : list json) : json :=
  JObj {[ "summaries" := sample_values
    [JObj {[ "testableSummaries" := sample_values
      [JObj {[ "tests" := sample_values
        [sample_suite [sample_suite suites]] ]}] ]}] ]}.

(** A world with one bundle: its description, the document of its tests
    under the identifier [tests_id], and its activity logs. *)
Definition bundle_world (bundle : json) (tests_id : string) (summaries : json)
    (logs : string → res json) : world :=
  {| listdir := λ _, raise OSError;
     getmtime := λ _, raise OSError;
     check_output := λ cmd,
       match cmd with
       | ["xcrun"; "xcresulttool"; "get"; "--path"; _; "--format"; "json"] => ret bundle
       | ["xcrun"; "xcresulttool"; "get"; "--path"; _; "--id"; id; "--format"; "json"] =>
           if bool_decide (id = tests_id) then ret summaries else logs id
       | _ => raise CalledProcessError
       end;
     derived_data := "/Users/me/Library/Developer/Xcode/DerivedData" |}.

(** A bundle of three tests in one suite, each with the same log. *)
Definition sample_run : world :=
  bundle_world (sample_bundle "iPhone13,2" "0~tests" "3") "0~tests"
    (sample_summaries [sample_suite [sample_test "0~a"; sample_test "0~b"; sample_test "0~c"]])
    (λ _, ret (sample_log "T/test()" "12.3456" [sample_group ["1.0"; "2.0"; "3.0"]])).


(** A file system with two project directories, [Client-aaa] the older
    and [Client-bbb] the newer, and the entries [bundles] in the log
    directory of each, the later entry the newer. *)
Definition client_world (bundles : list string) : world :=
  {| listdir := λ path,
       if bool_decide (path = "/dd") then ret ["Client-aaa"; "Client-bbb"]
       else if bool_decide (path = "/dd/Client-bbb/Logs/Test") then ret bundles
       else raise OSError;
     getmtime := λ path,
       if bool_decide (path = "/dd/Client-aaa") then ret 1
       else if bool_decide (path = "/dd/Client-bbb") then ret 2
       else
         match list_find (λ e, path_join "/dd/Client-bbb/Logs/Test" e = path) bundles with
         | Some (i, _) => ret (Z.of_nat i)
         | None => raise OSError
         end;
     check_output := λ _, raise CalledProcessError;
     derived_data := "/dd" |}.

(** A directory with the entries [entries], whatever the path, and the
    modification times [mtime]; no command can be run. *)
Definition dir_world (entries : list string) (mtime : string → res Z) : world :=
  {| listdir := λ _, ret entries;
     getmtime := mtime;
     check_output := λ _, raise CalledProcessError;
     derived_data := "/dd" |}.




(** The number of commands run among the events [t]. *)
Fixpoint runs (t : list event) : nat :=
  match t with
  | [] => 0
  | Run _ :: rest => S (runs rest)
  | _ :: rest => runs rest
  end.

(** ** The log files of Xcode 10 and below *)

(** [s.endswith(suffix)] *)
Definition endswith (suffix s : string) : bool :=
  (String.length suffix <=? String.length s)%nat
  && bool_decide (str_drop (String.length s - String.length suffix) s = suffix).

(** What [find_legacy_log_files] observes of the file system: the
    triples of a directory, its sub-directories and its files that
    [os.walk] yields from a path, in order, and the creation time
    [os.stat(f).st_ctime] of a file, of which only the order matters. *)
Record tree : Type := Tree {
  walk : string → list (string * list string * list string);
  st_ctime : string → res Z
}.

(** The inner loop, [for file in files], from the value of [result] on. *)
Fixpoint walk_files (root : string) (files : list string) (result : list string)
    : list string :=
  match files with
  | [] => result
  | file :: rest =>
      if endswith ".txt" file
      then walk_files root rest (result ++ [path_join root file])%list
      else walk_files root rest result
  end.

(** The outer loop, [for root, dirs, files in os.walk(...)]. *)
Fixpoint walk_loop (triples : list (string * list string * list string))
    (result : list string) : list string :=
  match triples with
  | [] => result
  | (root, _, files) :: rest => walk_loop rest (walk_files root files result)
  end.

(** [list.sort(key=...)] is stable: items of equal keys keep their
    order.  For keys in a total order there is one such arrangement,
    which the insertion of each item behind the items that are not
    greater builds. *)
Fixpoint insert_key (x : Z * string) (l : list (Z * string)) : list (Z * string) :=
  match l with
  | [] => [x]
  | y :: rest => if y.1 <=? x.1 then y :: insert_key x rest else x :: l
  end.

Definition sort_keyed (l : list (Z * string)) : list (Z * string) :=
  fold_left (λ acc x, insert_key x acc) l [].

(** The keys are computed for every item, in order, before the list is
    arranged; an exception of [os.stat] ends the call. *)
Definition find_legacy_log_files (fs : tree) (xcresult_path : string)
    : res (list string) :=
  let result := walk_loop (walk fs xcresult_path) [] in
  let! keys := mapM (st_ctime fs) result in
  ret (sort_keyed (zip_lists keys result)).*2.

(** The path [f] is a file of the walk whose name ends in [.txt],
    joined to its directory. *)
Definition txt_file_of (triples : list (string * list string * list string))
    (f : string) : Prop :=
  ∃ root dirs files file,
    (root, dirs, files) ∈ triples ∧ file ∈ files ∧
    endswith ".txt" file = true ∧ f = path_join root file.

(** The creation times of [a] and [b] are in order. *)
Definition ctime_le (fs : tree) (a b : string) : Prop :=
  ∃ ta tb, st_ctime fs a = inr ta ∧ st_ctime fs b = inr tb ∧ ta <= tb.

(** The creation time of [f] is [t]. *)
Definition ctime_is (fs : tree) (t : Z) (f : string) : bool :=
  match st_ctime fs f with
  | inr t' => t' =? t
  | inl _ => false
  end.

(** The pairs of [ps] hold the creation time of their file. *)
Definition keyed (fs : tree) (ps : list (Z * string)) : Prop :=
  Forall (λ p, st_ctime fs p.2 = inr p.1) ps.

(** A bundle with a log directory of three text files and a manifest. *)
Definition legacy_tree : tree :=
  {| walk := λ p,
       [(p, ["logs"], ["Info.plist"]);
        (path_join p "logs", [], ["b.txt"; "a.txt"; "c.log"; "d.txt"])];
     st_ctime := λ f,
       if bool_decide (f = "r.xcresult/logs/b.txt") then ret 5
       else if bool_decide (f = "r.xcresult/logs/a.txt") then ret 3
       else if bool_decide (f = "r.xcresult/logs/d.txt") then ret 5
       else raise OSError |}.

(** * Properties *)

(** ** Fallible computations *)

Lemma bind_inr_inv {A B : Type} (m : res A) (k : A → res B) (b : B) :
  bind m k = inr b → ∃ a, m = inr a ∧ k a = inr b.
Proof. destruct m as [e|a]; simpl; [discriminate | eauto]. Qed.

(** ** The argument extractor *)

Lemma flag_run_app (st : flag_state) (l1 l2 : list string) :
  flag_run st (l1 ++ l2) = flag_run (flag_run st l1) l2.
Proof. apply fold_left_app. Qed.

Lemma flag_run_snoc (st : flag_state) (l : list string) (a : string) :
  flag_run st (l ++ [a]) = flag_step (flag_run st l) a.
Proof. by rewrite flag_run_app. Qed.

Lemma flag_inv_run (args : list string) : flag_inv args (flag_run (∅, None) args).
Proof.
  induction args as [|a args IH] using rev_ind.
  { split; simpl; [intros k v H; by rewrite lookup_empty in H | discriminate]. }
  rewrite flag_run_snoc.
  destruct (flag_run (∅, None) args) as [result key].
  destruct IH as [IHr IHk]; simpl in IHr, IHk.
  unfold flag_step.
  destruct (startswith_dash a) eqn:Hd.
  - case_bool_decide as Hin.
    + split; simpl.
      * intros k v Hkv. destruct (IHr k v Hkv) as (? & ? & l1 & l2 & l3 & -> & ?).
        repeat split; try done. exists l1, l2, (l3 ++ [a])%list.
        split; [by rewrite <- !app_assoc, <- !app_comm_cons, <- app_assoc | done].
      * intros k [= <-]. split; [done|]. by exists args, [].
    + split; simpl.
      * intros k v Hkv. destruct (IHr k v Hkv) as (? & ? & l1 & l2 & l3 & -> & ?).
        repeat split; try done. exists l1, l2, (l3 ++ [a])%list.
        split; [by rewrite <- !app_assoc, <- !app_comm_cons, <- app_assoc | done].
      * intros k ->. destruct (IHk k eq_refl) as (? & l1 & l2 & -> & Hl2).
        split; [done|]. exists l1, (l2 ++ [a])%list.
        split; [by rewrite <- app_assoc | ].
        apply Forall_app; split; [done|]. by repeat constructor.
  - assert (Hold : ∀ k v, result !! k = Some v →
        k ∈ INTERESTING_FLAGS ∧ startswith_dash v = false ∧
        ∃ l1 l2 l3, (args ++ [a])%list = (l1 ++ k :: l2 ++ v :: l3)%list ∧ Forall skipped l2).
    { intros k v Hkv. destruct (IHr k v Hkv) as (? & ? & l1 & l2 & l3 & -> & ?).
      repeat split; try done. exists l1, l2, (l3 ++ [a])%list.
      split; [by rewrite <- !app_assoc, <- !app_comm_cons, <- app_assoc | done]. }
    destruct key as [k0|]; (split; simpl; [|discriminate]); [|done].
    intros k v Hkv. destruct (decide (k0 = k)) as [->|Hne].
    + rewrite lookup_insert_eq in Hkv. injection Hkv as <-.
      destruct (IHk k eq_refl) as (? & l1 & l2 & -> & Hl2).
      repeat split; try done. exists l1, l2, [].
      split; [by rewrite <- app_assoc | done].
    + rewrite lookup_insert_ne in Hkv by done. by apply Hold.
Qed.


Lemma flag_run_cons (st : flag_state) (a : string) (l : list string) :
  flag_run st (a :: l) = flag_run (flag_step st a) l.
Proof. reflexivity. Qed.

Lemma flag_step_skipped (st : flag_state) (t : string) :
  skipped t → flag_step st t = st.
Proof.
  intros [Hd Hn]. destruct st as [result key]. unfold flag_step.
  rewrite Hd. by rewrite bool_decide_eq_false_2.
Qed.

Lemma flag_run_dash (st : flag_state) (a : string) :
  startswith_dash a = true → (flag_step st a).1 = st.1.
Proof.
  intros Hd. destruct st as [result key]. unfold flag_step. rewrite Hd.
  by case_bool_decide.
Qed.

(** Tokens that do not name [k] leave the value of [k] alone, unless [k]
    is the pending key. *)
Lemma flag_run_other (k : string) (l : list string) (st : flag_state) :
  k ∉ l → st.2 ≠ Some k →
  (flag_run st l).1 !! k = st.1 !! k ∧ (flag_run st l).2 ≠ Some k.
Proof.
  revert st. induction l as [|a l IH]; intros [result key] Hk Hkey; [done|].
  apply not_elem_of_cons in Hk as [Hne Hk]. simpl in Hkey.
  change (flag_run (result, key) (a :: l)) with (flag_run (flag_step (result, key) a) l).
  assert ((flag_step (result, key) a).1 !! k = result !! k
          ∧ (flag_step (result, key) a).2 ≠ Some k) as [H1 H2].
  { unfold flag_step. destruct (startswith_dash a).
    - case_bool_decide; simpl; (split; [done|]); [intros [= ->]; by apply Hne | done].
    - destruct key as [k0|]; simpl; [|done].
      split; [|done]. apply lookup_insert_ne. congruence. }
  destruct (IH _ Hk H2) as [H3 H4]. split; [by rewrite H3, H1 | done].
Qed.

(** C1, as amended.  Whatever the tokens: a value stored under [k] is a
    token without a leading dash, [k] is a recognized flag, and between
    the flag and the value stand only tokens with a leading dash that are
    no recognized flags; a token without a leading dash that follows a
    recognized flag at once is stored under that flag; a token with a
    leading dash stores nothing, so a recognized flag at the end of the
    line is dropped; and an unrecognized token with a leading dash can be
    left out of the line without changing the result. *)
Theorem parse_xcodebuild_flags_captures :
  (∀ (args : list string) (k v : string),
     parse_xcodebuild_flags args !! k = Some v →
     k ∈ INTERESTING_FLAGS ∧ startswith_dash v = false ∧
     ∃ l1 l2 l3, args = (l1 ++ k :: l2 ++ v :: l3)%list ∧ Forall skipped l2) ∧
  (∀ (l : list string) (k v : string),
     k ∈ INTERESTING_FLAGS → startswith_dash v = false →
     parse_xcodebuild_flags (l ++ [k; v]) = <[k := v]> (parse_xcodebuild_flags l)) ∧
  (∀ (l : list string) (k : string),
     startswith_dash k = true →
     parse_xcodebuild_flags (l ++ [k]) = parse_xcodebuild_flags l) ∧
  (∀ (l1 l2 : list string) (t : string),
     skipped t →
     parse_xcodebuild_flags (l1 ++ t :: l2) = parse_xcodebuild_flags (l1 ++ l2)).
Proof.
  repeat split.
  - by destruct (proj1 (flag_inv_run args) k v H) as (? & ? & ?).
  - by destruct (proj1 (flag_inv_run args) k v H) as (? & ? & ?).
  - by destruct (proj1 (flag_inv_run args) k v H) as (? & ? & ?).
  - intros l k v Hk Hv. unfold parse_xcodebuild_flags.
    change [k; v] with ([k] ++ [v])%list. rewrite app_assoc, !flag_run_snoc.
    destruct (flag_run (∅, None) l) as [result key]. unfold flag_step at 2.
    assert (startswith_dash k = true) as ->.
    { unfold INTERESTING_FLAGS in Hk. set_unfold in Hk. by destruct Hk as [[-> | ->] | ->]. }
    rewrite bool_decide_eq_true_2 by done. unfold flag_step. by rewrite Hv.
  - intros l k Hk. unfold parse_xcodebuild_flags. rewrite flag_run_snoc.
    by apply flag_run_dash.
  - intros l1 l2 t Ht. unfold parse_xcodebuild_flags.
    by rewrite !flag_run_app, flag_run_cons, flag_step_skipped.
Qed.

Lemma parse_xcodebuild_flags_captures_witness :
  parse_xcodebuild_flags ["-scheme"; "-verbose"; "Foo"] !! "-scheme" = Some "Foo" ∧
  ("-scheme" ∈ INTERESTING_FLAGS ∧ startswith_dash "Foo" = false ∧
   ∃ l1 l2 l3, ["-scheme"; "-verbose"; "Foo"] = (l1 ++ "-scheme" :: l2 ++ "Foo" :: l3)%list
     ∧ Forall skipped l2) ∧
  parse_xcodebuild_flags (["build"] ++ ["-project"; "A.xcodeproj"])
    = <["-project" := "A.xcodeproj"]> (parse_xcodebuild_flags ["build"]) ∧
  parse_xcodebuild_flags (["-project"; "A.xcodeproj"] ++ ["-scheme"])
    = parse_xcodebuild_flags ["-project"; "A.xcodeproj"] ∧
  parse_xcodebuild_flags (["-scheme"] ++ "-verbose" :: ["Foo"])
    = parse_xcodebuild_flags (["-scheme"] ++ ["Foo"]).
Proof.
  destruct parse_xcodebuild_flags_captures as (H1 & H2 & H3 & H4).
  split; [by vm_compute|].
  split; [apply H1; by vm_compute|].
  split; [apply H2; [by vm_compute | reflexivity]|].
  split; [apply H3; reflexivity|].
  apply H4. split; [reflexivity | by vm_compute].
Defined.

(** C1, as the claim states it, fails: [Foo] is stored under [-scheme]
    although the token before it, [-verbose], is no recognized flag. *)
Lemma parse_xcodebuild_flags_not_adjacent :
  parse_xcodebuild_flags ["-scheme"; "-verbose"; "Foo"] !! "-scheme" = Some "Foo" ∧
  ¬ ∃ (l1 l3 : list string) (k : string),
      k ∈ INTERESTING_FLAGS ∧
      ["-scheme"; "-verbose"; "Foo"] = (l1 ++ k :: "Foo" :: l3)%list.
Proof.
  split; [by vm_compute|].
  intros (l1 & l3 & k & Hk & Heq).
  destruct l1 as [|a [|b [|c l1]]]; simpl in Heq.
  - discriminate.
  - injection Heq as _ <- _. unfold INTERESTING_FLAGS in Hk. set_unfold in Hk.
    by destruct Hk as [[? | ?] | ?].
  - discriminate.
  - by destruct l1.
Qed.

(** C10.  When a recognized flag [k] is followed at once by a value [v]
    and does not occur again after it, the mapping holds [v] for [k],
    whatever was stored for [k] by the tokens before: the last capture
    wins. *)
Theorem parse_xcodebuild_flags_last_wins (l1 l2 : list string) (k v : string) :
  k ∈ INTERESTING_FLAGS → startswith_dash v = false → k ∉ l2 →
  parse_xcodebuild_flags (l1 ++ k :: v :: l2) !! k = Some v.
Proof.
  intros Hk Hv Hl2. unfold parse_xcodebuild_flags.
  change (k :: v :: l2) with ([k; v] ++ l2)%list. rewrite app_assoc, flag_run_app.
  change [k; v] with ([k] ++ [v])%list. rewrite app_assoc, !flag_run_snoc.
  destruct (flag_run (∅, None) l1) as [result key]. unfold flag_step at 2.
  assert (startswith_dash k = true) as ->.
  { unfold INTERESTING_FLAGS in Hk. set_unfold in Hk. by destruct Hk as [[-> | ->] | ->]. }
  rewrite bool_decide_eq_true_2 by done. unfold flag_step. rewrite Hv.
  destruct (flag_run_other k l2 (<[k:=v]> result, None) Hl2) as [-> _]; [done|].
  apply lookup_insert_eq.
Qed.

Lemma parse_xcodebuild_flags_last_wins_witness :
  parse_xcodebuild_flags (["-scheme"; "Old"; "build"] ++ "-scheme" :: "New" :: ["-project"; "P.xcodeproj"])
    !! "-scheme" = Some "New".
Proof.
  apply parse_xcodebuild_flags_last_wins; [by vm_compute | reflexivity | ].
  repeat (apply not_elem_of_cons; split; [discriminate|]). apply not_elem_of_nil.
Defined.


(** ** Paths *)

Lemma str_app_nil_l (s : string) : "" ++ s = s.
Proof. reflexivity. Qed.

Lemma str_app_cons_l (a : ascii) (s t : string) : String a s ++ t = String a (s ++ t).
Proof. reflexivity. Qed.

Ltac str_simpl :=
  simpl; repeat (rewrite str_app_nil_l || rewrite str_app_cons_l); simpl.

Lemma str_app_assoc (a b c : string) : a ++ (b ++ c) = (a ++ b) ++ c.
Proof. induction a as [|x a IH]; str_simpl; [done | by f_equal]. Qed.

Lemma str_length_app (a b : string) :
  String.length (a ++ b) = (String.length a + String.length b)%nat.
Proof. induction a as [|x a IH]; str_simpl; [done | by f_equal]. Qed.

Lemma str_app_cons (a b : string) (c : ascii) :
  a ++ String c b = (a ++ String c "") ++ b.
Proof. induction a as [|x a IH]; str_simpl; [done | by f_equal]. Qed.

Lemma str_app_nil_r (a : string) : a ++ "" = a.
Proof. induction a as [|x a IH]; str_simpl; [done | by f_equal]. Qed.

Lemma str_take_drop (n : nat) (s : string) : str_take n s ++ str_drop n s = s.
Proof.
  revert s. induction n as [|n IH]; intros [|a s]; str_simpl; try done.
  by rewrite IH.
Qed.

Lemma str_drop_app (a b : string) : str_drop (String.length a) (a ++ b) = b.
Proof. induction a as [|c a IH]; str_simpl; [by destruct b | done]. Qed.

Lemma str_take_app (a b : string) : str_take (String.length a) (a ++ b) = a.
Proof. induction a as [|c a IH]; str_simpl; [by destruct b | by rewrite IH]. Qed.

Lemma rfind_from_absent (c : ascii) (s : string) (i acc : Z) :
  str_in c s = false → rfind_from c s i acc = acc.
Proof.
  revert i acc. induction s as [|a s IH]; intros i acc H; simpl in *; [done|].
  apply orb_false_iff in H as [Ha Hs]. rewrite Ha. by apply IH.
Qed.

Lemma rfind_from_last (c : ascii) (a b : string) (i acc : Z) :
  str_in c b = false →
  rfind_from c (a ++ String c b) i acc = i + Z.of_nat (String.length a).
Proof.
  intros Hb. revert i acc. induction a as [|x a IH]; intros i acc; str_simpl.
  - rewrite bool_decide_eq_true_2 by done. rewrite rfind_from_absent by done. lia.
  - rewrite IH. lia.
Qed.

(** Either [c] does not occur in [s], or [s] splits at its last [c]. *)
Lemma str_in_split (c : ascii) (s : string) :
  str_in c s = false ∨ ∃ a b, s = a ++ String c b ∧ str_in c b = false.
Proof.
  induction s as [|x s [IH | (a & b & -> & Hb)]]; simpl.
  - by left.
  - case_bool_decide as Hx; [|by left]. subst x.
    right. by exists "", s.
  - right. by exists (String x a), b.
Qed.

Lemma basename_no_slash (p : string) : str_in "/" (basename p) = false.
Proof.
  unfold basename, rfind.
  destruct (str_in_split "/" p) as [H | (a & b & -> & Hb)].
  - by rewrite rfind_from_absent.
  - rewrite rfind_from_last by done.
    replace (Z.to_nat (0 + Z.of_nat (String.length a) + 1))
      with (String.length (a ++ "/")).
    + rewrite (str_app_cons a b). by rewrite str_drop_app.
    + rewrite str_length_app. simpl. lia.
Qed.

Lemma str_get_app (pre s : string) (a : ascii) :
  String.get (String.length pre) (pre ++ String a s) = Some a.
Proof. induction pre as [|x pre IH]; str_simpl; done. Qed.

Lemma not_dot_match {A : Type} (a : ascii) (x y : A) :
  a ≠ "."%char →
  match a with "."%char => x | _ => y end = y.
Proof.
  intros Hne. destruct a as [[] [] [] [] [] [] [] []]; try reflexivity.
  by destruct Hne.
Qed.

(** The loop of [splitext] over the characters of [r] finds a character
    other than the dot exactly when [r] has one. *)
Lemma has_non_dot_all_dots (pre r e : string) :
  has_non_dot (pre ++ r ++ e) (String.length pre) (String.length r) = negb (all_dots r).
Proof.
  revert pre. induction r as [|a r IH]; intros pre; str_simpl; [done|].
  rewrite str_get_app. case_bool_decide as Ha.
  - subst a. simpl.
    specialize (IH (pre ++ ".")).
    rewrite <- str_app_assoc in IH. rewrite str_app_cons_l, str_app_nil_l in IH.
    rewrite str_length_app in IH. simpl in IH.
    by replace (String.length pre + 1)%nat with (S (String.length pre)) in IH by lia.
  - simpl. by apply not_dot_match.
Qed.


Lemma splitext_no_dot (b : string) :
  str_in "/" b = false → str_in "." b = false → splitext b = (b, "").
Proof.
  intros Hs Hd. unfold splitext, rfind.
  by rewrite !rfind_from_absent.
Qed.

Lemma splitext_split (a e : string) :
  str_in "/" (a ++ String "." e) = false → str_in "." e = false →
  splitext (a ++ String "." e)
  = if all_dots a then (a ++ String "." e, "") else (a, String "." e).
Proof.
  intros Hs Hd. unfold splitext, rfind.
  rewrite (rfind_from_absent "/") by done.
  rewrite rfind_from_last by done.
  replace (-1 <? 0 + Z.of_nat (String.length a)) with true by (symmetry; apply Z.ltb_lt; lia).
  replace (Z.to_nat (-1 + 1)) with (String.length "") by done.
  replace (Z.to_nat (0 + Z.of_nat (String.length a) - (-1 + 1))) with (String.length a) by lia.
  replace (Z.to_nat (0 + Z.of_nat (String.length a))) with (String.length a) by lia.
  pose proof (has_non_dot_all_dots "" a (String "." e)) as H.
  rewrite str_app_nil_l in H. rewrite H.
  destruct (all_dots a); simpl; [done|].
  by rewrite str_take_app, str_drop_app.
Qed.

(** The two results [splitext] can have on a base name. *)
Lemma splitext_basename (path : string) :
  splitext (basename path) = (basename path, "") ∨
  ∃ a e, basename path = a ++ String "." e ∧ str_in "." e = false ∧
         all_dots a = false ∧ splitext (basename path) = (a, String "." e).
Proof.
  pose proof (basename_no_slash path) as Hs.
  destruct (str_in_split "." (basename path)) as [Hd | (a & e & Hb & He)].
  - left. by apply splitext_no_dot.
  - rewrite Hb in Hs |- *. rewrite splitext_split by done.
    destruct (all_dots a) eqn:Ha; [by left|].
    right. by exists a, e.
Qed.

(** C7.  The project name is returned exactly when the base name of the
    path is a name that is not made of dots only, followed by
    [.xcodeproj], and the name is what is returned; this is when
    [splitext] gives the extension [.xcodeproj].  With any other
    extension the call raises [ValueError].  The path
    [Client/Example/Client.xcodeproj] gives [Client]. *)
Theorem project_from_project_path_spec :
  (∀ path root : string,
     project_from_project_path path = inr root ↔
     basename path = root ++ ".xcodeproj" ∧ all_dots root = false) ∧
  (∀ path : string,
     (splitext (basename path)).2 = ".xcodeproj" →
     project_from_project_path path = inr (splitext (basename path)).1) ∧
  (∀ path : string,
     (splitext (basename path)).2 ≠ ".xcodeproj" →
     project_from_project_path path
     = inl (ValueError (path ++ " is not a valid project path"))) ∧
  project_from_project_path "Client/Example/Client.xcodeproj" = inr "Client".
Proof.
  split; [|split; [|split]].
  - intros path root. unfold project_from_project_path. split.
    + destruct (splitext_basename path) as [-> | (a & e & Hb & He & Ha & ->)].
      * rewrite bool_decide_eq_false_2 by done. discriminate.
      * case_bool_decide as Hext; [|discriminate].
        intros [= <-]. by rewrite Hb, Hext.
    + intros [Hb Hr]. rewrite Hb.
      pose proof (basename_no_slash path) as Hs. rewrite Hb in Hs.
      change (root ++ ".xcodeproj") with (root ++ String "." "xcodeproj") in *.
      rewrite splitext_split by done. by rewrite Hr.
  - intros path. unfold project_from_project_path.
    destruct (splitext (basename path)) as [root ext]. simpl. intros ->.
    by rewrite bool_decide_eq_true_2.
  - intros path. unfold project_from_project_path.
    destruct (splitext (basename path)) as [root ext]. simpl. intros Hne.
    by rewrite bool_decide_eq_false_2.
  - reflexivity.
Qed.

Lemma project_from_project_path_spec_witness :
  project_from_project_path "build/App.xcodeproj" = inr "App" ∧
  project_from_project_path "Client/Example/Client.xcodeproj"
    = inr (splitext (basename "Client/Example/Client.xcodeproj")).1 ∧
  project_from_project_path "Client/Example/Client.xcworkspace"
    = inl (ValueError ("Client/Example/Client.xcworkspace" ++ " is not a valid project path")) ∧
  project_from_project_path "Client/.xcodeproj"
    = inl (ValueError ("Client/.xcodeproj" ++ " is not a valid project path")).
Proof.
  destruct project_from_project_path_spec as (H1 & H2 & H3 & _).
  split; [apply H1; by split|].
  split; [apply H2; reflexivity|].
  split; apply H3; by vm_compute.
Defined.


(** ** Floating point: the model on known values

    The values on the right are those of CPython. *)

Example float_repr_values :
  (λ s, float_repr <$> float_of_string s) <$>
    ["1.0"; "0.1"; "0.30000000000000004"; "1e16"; "1e15"; "1e-05"; "0.0001"; "123456789012345678"; "5e-324"; "1.7976931348623157e308"; "2.675"; "607491.7616000001"; "0.20137628960000004"; "1e22"; "9007199254740993"; " 2.5e-3 "; "1_000.5"; "-0.0"; "inf"; "-Infinity"; "nan"]
  = Some <$>
    ["1.0"; "0.1"; "0.30000000000000004"; "1e+16"; "1000000000000000.0"; "1e-05"; "0.0001"; "1.2345678901234568e+17"; "5e-324"; "1.7976931348623157e+308"; "2.675"; "607491.7616000001"; "0.20137628960000004"; "1e+22"; "9007199254740992.0"; "0.0025"; "1000.5"; "-0.0"; "inf"; "-inf"; "nan"].
Proof. by vm_compute. Qed.

Example format_2f_values :
  (λ s, format_2f <$> float_of_string s) <$>
    ["12.3456"; "0.125"; "0.375"; "2.675"; "1.005"; "99.995"; "-0.001"; "177.34"; "1e21"; "nan"; "-inf"]
  = Some <$>
    ["12.35"; "0.12"; "0.38"; "2.67"; "1.00"; "100.00"; "-0.00"; "177.34"; "1000000000000000000000.00"; "nan"; "-inf"].
Proof. by vm_compute. Qed.

Example float_of_string_rejects :
  float_of_string <$> [""; "1__0"; "_1"; "1_"; "."; "e5"; "1e"; "0x10"; "1.5 x"]
  = [None; None; None; None; None; None; None; None; None].
Proof. by vm_compute. Qed.

Example int_of_string_values :
  int_of_string <$> [" 12 "; "-3"; "1_0"; "+7"] = [inr 12; inr (-3); inr 10; inr 7].
Proof. by vm_compute. Qed.

(** ** The metric aggregator *)

#[local] Arguments fadd : simpl never.
#[local] Arguments fdiv : simpl never.
#[local] Arguments float_of_Z : simpl never.
#[local] Arguments float_of_int : simpl never.
#[local] Arguments float_of_string : simpl never.
#[local] Arguments float_repr : simpl never.
#[local] Arguments format_2f : simpl never.

Lemma float_of_int_0 : float_of_int 0 = inr (S754_zero false).
Proof. reflexivity. Qed.








Lemma collect_metrics_failure (good rest : list json) (g : json) (e : exn) (result : list json) :
  Forall (λ x, ∃ s, metric_output x = inr s) good →
  metric_output g = inl e →
  collect_metrics (good ++ g :: rest) result = inl e.
Proof.
  intros H Hg. revert result. induction H as [|x good [s Hx] _ IH]; intros result; simpl.
  - by rewrite Hg.
  - rewrite Hx. simpl. apply IH.
Qed.

(** [collect_log_output] is the header followed by the metric groups. *)
Lemma collect_log_output_header (doc : json) (result : list json) :
  collect_log_output doc result
  = let! r := log_header doc result in
    let! performance_metrics := py_get doc "performanceMetrics" in
    match performance_metrics with
    | JNull => ret r
    | _ =>
        let! metrics := py_get performance_metrics "_values" in
        let! ms := py_iter metrics in
        collect_metrics ms r
    end.
Proof.
  unfold collect_log_output, log_header.
  destruct (py_get doc "identifier") as [e|tn]; simpl; [done|].
  destruct (truthy tn); simpl.
  - destruct (getitem_key tn "_value") as [e|v]; simpl; [done|].
    destruct (py_get doc "duration") as [e|d]; simpl; [done|].
    destruct (truthy d); simpl; [|done].
    destruct (getitem_key d "_value") as [e|dv]; simpl; [done|].
    by destruct (py_float dv).
  - destruct (py_get doc "duration") as [e|d]; simpl; [done|].
    destruct (truthy d); simpl; [|done].
    destruct (getitem_key d "_value") as [e|dv]; simpl; [done|].
    by destruct (py_float dv).
Qed.













Lemma py_join_strings (l : list string) :
  py_join "," (JStr <$> l) = inr (join_comma l).
Proof.
  induction l as [|s [|s' l] IH]; [done | done |].
  change (py_join "," (JStr <$> s :: s' :: l))
    with (let! t := py_join "," (JStr <$> s' :: l) in ret (s ++ "," ++ t)).
  by rewrite IH.
Qed.








(** ** The main flow *)

(** C8.  With no argument the program writes the usage text to standard
    output and exits with status 1; it runs no command and writes no
    file. *)
Theorem main_no_arguments (w : world) :
  main w [] = ([Stdout (Text usage)], inl (SystemExit 1)).
Proof. reflexivity. Qed.

Lemma split_comma_no_comma (s : string) :
  str_in "," s = false → split_comma s = [s].
Proof.
  induction s as [|c s IH]; simpl; [done|].
  intros H. apply orb_false_iff in H as [Hc Hs]. rewrite Hc, IH; done.
Qed.

Lemma split_comma_app (s t : string) :
  str_in "," s = false → split_comma (s ++ "," ++ t) = s :: split_comma t.
Proof.
  induction s as [|c s IH]; str_simpl; [done|].
  intros H. apply orb_false_iff in H as [Hc Hs]. rewrite Hc.
  change (String "," t) with ("," ++ t). by rewrite IH.
Qed.

Lemma split_join_comma (fields : list string) :
  fields ≠ [] → Forall (λ s, str_in "," s = false) fields →
  split_comma (join_comma fields) = fields.
Proof.
  intros Hne H. induction H as [|s [|s' l] Hs H IH]; [done | |].
  - simpl. by apply split_comma_no_comma.
  - change (join_comma (s :: s' :: l)) with (s ++ "," ++ join_comma (s' :: l)).
    rewrite split_comma_app by done. by rewrite IH.
Qed.

Lemma dict_fold_other (l : list (string * string)) (m : gmap string string) (k : string) :
  k ∉ l.*1 →
  fold_left (λ m p, <[p.1 := p.2]> m) l m !! k = m !! k.
Proof.
  revert m. induction l as [|[k0 v0] l IH]; intros m Hk; simpl in *; [done|].
  apply not_elem_of_cons in Hk as [Hne Hk].
  rewrite IH by done. by apply lookup_insert_ne.
Qed.

Lemma zip_lists_keys {A B : Type} (ks : list A) (vs : list B) (k : A) :
  k ∈ (zip_lists ks vs).*1 → k ∈ ks.
Proof.
  revert vs. induction ks as [|k0 ks IH]; intros [|v0 vs] H; simpl in *;
    try by apply elem_of_nil in H.
  apply elem_of_cons in H as [-> | H]; [left | right; by eapply IH].
Qed.

Lemma dict_fold_zip (ks vs : list string) (m : gmap string string) (i : nat) (k : string) :
  NoDup ks → ks !! i = Some k →
  fold_left (λ m p, <[p.1 := p.2]> m) (zip_lists ks vs) m !! k
  = match vs !! i with Some v => Some v | None => m !! k end.
Proof.
  intros Hnd. revert vs m i.
  induction Hnd as [|k0 ks Hk0 Hnd IH]; intros vs m i Hi; [done|].
  destruct vs as [|v0 vs]; [done|]. simpl.
  destruct i as [|i]; simpl in *.
  - injection Hi as <-. rewrite dict_fold_other; [apply lookup_insert_eq|].
    intros H. by apply zip_lists_keys in H.
  - rewrite (IH vs _ i Hi). destruct (vs !! i); [done|].
    apply lookup_insert_ne. intros ->. apply Hk0. by eapply list_elem_of_lookup_2.
Qed.

Lemma defaultValues_NoDup : NoDup defaultValues.
Proof.
  assert (bool_decide (NoDup defaultValues) = true) as H by (by vm_compute).
  by apply bool_decide_eq_true_1 in H.
Qed.


(** C5.  In the main flow the dictionary printed for a log line [log] is
    the fixed list of labels zipped with the pieces of [log] between its
    commas.  The label at position [i] is mapped to the piece at position
    [i]; a label beyond the last piece is absent, and so is every other
    key.  When no field holds a comma, the pieces of the joined fields are
    the fields. *)
Theorem main_step_mapping :
  (∀ (w : world) (path : string) (sid : json) (log dev : string) (t1 t2 : list event),
     export_log w path sid = (t1, inr log) →
     find_device_info w path = (t2, inr (JStr dev)) →
     main_step w path sid
     = ((t1 ++ t2 ++
         [Stdout (Text (dev ++ "," ++ log ++ newline));
          Stdout (ReprDict (dict_of (zip_lists defaultValues (split_comma log))))])%list,
        inr (dict_of (zip_lists defaultValues (split_comma log))))) ∧
  (∀ (log : string) (i : nat) (label : string),
     defaultValues !! i = Some label →
     dict_of (zip_lists defaultValues (split_comma log)) !! label = split_comma log !! i) ∧
  (∀ (log : string) (k : string),
     k ∉ defaultValues →
     dict_of (zip_lists defaultValues (split_comma log)) !! k = None) ∧
  (∀ fields : list string,
     fields ≠ [] → Forall (λ s, str_in "," s = false) fields →
     split_comma (join_comma fields) = fields).
Proof.
  split; [|split; [|split]].
  - intros w path sid log dev t1 t2 He Hd.
    unfold main_step. rewrite He. unfold io_bind at 1. rewrite Hd. reflexivity.
  - intros log i label Hi. unfold dict_of.
    rewrite (dict_fold_zip _ _ _ i label defaultValues_NoDup Hi).
    by destruct (split_comma log !! i).
  - intros log k Hk. unfold dict_of. rewrite dict_fold_other; [done|].
    intros H. by apply zip_lists_keys in H.
  - apply split_join_comma.
Qed.

Lemma main_step_mapping_witness :
  main_step sample_run "r.xcresult" (JStr "0~a")
  = (([Run (tool_cmd ["get"; "--path"; "r.xcresult"; "--id"; "0~a"])]
      ++ [Run (tool_cmd ["get"; "--path"; "r.xcresult"])]
      ++ [Stdout (Text ("iPhone13,2" ++ "," ++ "T/test(),12.35,2.0" ++ newline));
          Stdout (ReprDict (dict_of (zip_lists defaultValues (split_comma "T/test(),12.35,2.0"))))])%list,
     inr (dict_of (zip_lists defaultValues (split_comma "T/test(),12.35,2.0")))) ∧
  dict_of (zip_lists defaultValues (split_comma "T/test(),12.35,2.0")) !! "Duration"
    = split_comma "T/test(),12.35,2.0" !! 1%nat ∧
  dict_of (zip_lists defaultValues (split_comma "T/test(),12.35,2.0")) !! "cpu" = None ∧
  split_comma (join_comma ["T/test()"; "12.35"; "2.0"]) = ["T/test()"; "12.35"; "2.0"].
Proof.
  destruct main_step_mapping as (H1 & H2 & H3 & H4).
  split; [|split; [|split]].
  - apply H1; by vm_compute.
  - by apply H2.
  - apply H3. assert (bool_decide ("cpu" ∈ defaultValues) = false) as H by (by vm_compute).
    by apply bool_decide_eq_false_1 in H.
  - apply H4; [done|]. repeat constructor.
Defined.


(** ** The metric reader *)

Lemma descend_app (x : json) (p q : list selector) :
  descend x (p ++ q) = let! y := descend x p in descend y q.
Proof.
  revert x. induction p as [|s p IH]; intros x; simpl; [done|].
  destruct (getitem x s) as [e|y]; simpl; [done | apply IH].
Qed.






Lemma mapM_failure {A B : Type} (f : A → res B) (l1 l2 : list A) (a : A) (e : exn) :
  Forall (λ x, ∃ y, f x = inr y) l1 → f a = inl e →
  mapM f (l1 ++ a :: l2) = inl e.
Proof.
  intros H Ha. induction H as [|x l1 [y Hx] _ IH]; simpl; [by rewrite Ha|].
  rewrite Hx. simpl. by rewrite IH.
Qed.




Lemma io_bind_inr_inv {A B : Type} (m : io A) (k : A → io B) (t : list event) (b : B) :
  io_bind m k = (t, inr b) →
  ∃ t1 a t2, m = (t1, inr a) ∧ k a = (t2, inr b) ∧ t = (t1 ++ t2)%list.
Proof.
  destruct m as [t1 [e|a]]; simpl; [done|].
  destruct (k a) as [t2 r] eqn:Hk. intros [= <- ->]. by exists t1, a, t2.
Qed.









(** ** The bundle locator *)

Section Locator.

Variable w : world.
Variable path : string.
Variable prefix : string → bool.

Lemma older_or_same_refl (p : string) : older_or_same w p p.
Proof. intros ta tp Ha Hp. rewrite Ha in Hp. injection Hp as ->. lia. Qed.

(** What the loop returns, from the value [acc] of [result] on. *)
Lemma newest_loop_spec (entries : list string) (acc r : option string) :
  newest_loop w path prefix entries acc = inr r →
  match acc with
  | None =>
      (r = None ∧ ∀ e, e ∈ entries → prefix e = false) ∨
      (∃ e, r = Some (path_join path e) ∧ e ∈ entries ∧ prefix e = true ∧
            newest_among w path prefix entries (path_join path e))
  | Some a =>
      ∃ p, r = Some p ∧
           (p = a ∨ ∃ e, e ∈ entries ∧ prefix e = true ∧ p = path_join path e) ∧
           older_or_same w a p ∧ newest_among w path prefix entries p
  end.
Proof.
  revert acc. induction entries as [|e entries IH]; intros acc H; simpl in H.
  - injection H as <-. destruct acc as [a|].
    + exists a. repeat split; [by left | apply older_or_same_refl |].
      intros e He. by apply elem_of_nil in He.
    + left. split; [done|]. intros e He. by apply elem_of_nil in He.
  - destruct (prefix e) eqn:Hpe.
    + destruct acc as [a|].
      * destruct (getmtime w a) as [?|ta] eqn:Hta; [done|]. simpl in H.
        destruct (getmtime w (path_join path e)) as [?|te] eqn:Hte; [done|]. simpl in H.
        destruct (ta <? te) eqn:Hlt.
        -- apply Z.ltb_lt in Hlt.
           destruct (IH _ H) as (p & -> & Hp & Hep & Hmax). exists p.
           split; [done|]. split; [|split].
           ++ right. destruct Hp as [-> | (e' & He' & Hpe' & ->)].
              ** exists e. by split; [left|].
              ** exists e'. by split; [right|].
           ++ intros ta' tp Ha' Hp'. rewrite Hta in Ha'. injection Ha' as <-.
              specialize (Hep te tp Hte Hp'). lia.
           ++ intros e' He' Hpe'. apply elem_of_cons in He' as [-> | He']; [done|].
              by apply Hmax.
        -- apply Z.ltb_ge in Hlt.
           destruct (IH _ H) as (p & -> & Hp & Hap & Hmax). exists p.
           split; [done|]. split; [|split; [done|]].
           ++ destruct Hp as [-> | (e' & He' & Hpe' & ->)]; [by left|].
              right. exists e'. by split; [right|].
           ++ intros e' He' Hpe'. apply elem_of_cons in He' as [-> | He']; [|by apply Hmax].
              intros te' tp He'' Hp'. rewrite Hte in He''. injection He'' as <-.
              specialize (Hap ta tp Hta Hp'). lia.
      * destruct (IH _ H) as (p & -> & Hp & Hep & Hmax). right.
        destruct Hp as [-> | (e' & He' & Hpe' & ->)].
        -- exists e. split; [done|]. split; [by left|]. split; [done|].
           intros e' He' Hpe'. apply elem_of_cons in He' as [-> | He'];
             [apply older_or_same_refl | by apply Hmax].
        -- exists e'. split; [done|]. split; [by right|]. split; [done|].
           intros e'' He'' Hpe''. apply elem_of_cons in He'' as [-> | He''];
             [done | by apply Hmax].
    + specialize (IH _ H). destruct acc as [a|].
      * destruct IH as (p & -> & Hp & Hap & Hmax). exists p.
        split; [done|]. split; [|split; [done|]].
        -- destruct Hp as [-> | (e' & He' & Hpe' & ->)]; [by left|].
           right. exists e'. by split; [right|].
        -- intros e' He' Hpe'. apply elem_of_cons in He' as [-> | He']; [congruence|].
           by apply Hmax.
      * destruct IH as [[-> Hnone] | (e' & -> & He' & Hpe' & Hmax)].
        -- left. split; [done|]. intros e' He'.
           apply elem_of_cons in He' as [-> | He']; [done | by apply Hnone].
        -- right. exists e'. split; [done|]. split; [by right|]. split; [done|].
           intros e'' He'' Hpe''. apply elem_of_cons in He'' as [-> | He''];
             [congruence | by apply Hmax].
Qed.

End Locator.


Lemma newest_loop_no_match (w : world) (path : string) (prefix : string → bool)
    (entries : list string) (acc : option string) :
  (∀ e, e ∈ entries → prefix e = false) →
  newest_loop w path prefix entries acc = inr acc.
Proof.
  induction entries as [|e entries IH]; intros H; simpl; [done|].
  rewrite (H e) by left. apply IH. intros e' He'. apply H. by right.
Qed.

Lemma prefix_cons (a b : ascii) (s t : string) :
  String.prefix (String a s) (String b t)
  = if ascii_dec a b then String.prefix s t else false.
Proof. reflexivity. Qed.

Lemma prefix_needs_dash (s t : string) :
  str_in "-" t = false → String.prefix (s ++ "-") t = false.
Proof.
  revert t. induction s as [|a s IH]; intros [|b t] H; try reflexivity.
  - rewrite str_app_nil_l, prefix_cons.
    simpl in H. apply orb_false_iff in H as [Hb _].
    destruct (ascii_dec "-" b) as [<-|]; [|done]. by rewrite bool_decide_eq_true_2 in Hb.
  - rewrite str_app_cons_l, prefix_cons.
    simpl in H. apply orb_false_iff in H as [_ Ht].
    destruct (ascii_dec a b); [by apply IH | done].
Qed.

(** An entry with a single dash matches the pattern of no scheme. *)
Lemma scheme_prefix_one_dash (scheme a b : string) :
  str_in "-" a = false → str_in "-" b = false →
  scheme_prefix scheme (a ++ "-" ++ b) = false.
Proof.
  intros Ha Hb. unfold scheme_prefix.
  assert (skip_non_dash (a ++ "-" ++ b) = "-" ++ b) as ->.
  { induction a as [|c a IH]; str_simpl; [done|].
    simpl in Ha. apply orb_false_iff in Ha as [Hc Ha]. rewrite Hc. by apply IH. }
  rewrite !str_app_cons_l, !str_app_nil_l, prefix_cons.
  destruct (ascii_dec "-" "-"); [|done]. by apply prefix_needs_dash.
Qed.

(** C6, as amended.  [find_newest_matching_prefix] returns [None] when
    no entry of the directory matches the pattern, and otherwise the
    path of a matching entry than which no matching entry is newer.
    [find_xcresult_path] raises [LookupError] when no entry of the log
    directory matches the pattern of the scheme.  Of the entries
    [Client-aaa] and [Client-bbb], the second the newer, the project
    stage, whose pattern is the project name and a dash, returns
    [Client-bbb]; no pattern of a scheme matches either of them. *)
Theorem find_newest_matching_prefix_spec :
  (∀ (w : world) (path : string) (prefix : string → bool) (entries : list string)
     (r : option string),
     listdir w path = inr entries →
     find_newest_matching_prefix w path prefix = inr r →
     (r = None ∧ ∀ e, e ∈ entries → prefix e = false) ∨
     (∃ e, r = Some (path_join path e) ∧ e ∈ entries ∧ prefix e = true ∧
           newest_among w path prefix entries (path_join path e))) ∧
  (∀ (w : world) (project scheme pp : string) (entries : list string),
     find_project_path w project = inr pp →
     listdir w (path_join pp "Logs/Test") = inr entries →
     (∀ e, e ∈ entries → scheme_prefix scheme e = false) →
     find_xcresult_path w project scheme
     = inl (LookupError ("Could not find xcresult bundle for " ++ scheme ++ " in "
                         ++ path_join pp "Logs/Test"))) ∧
  (∀ bundles : list string,
     find_project_path (client_world bundles) "Client" = inr "/dd/Client-bbb") ∧
  (∀ scheme : string,
     scheme_prefix scheme "Client-aaa" = false ∧ scheme_prefix scheme "Client-bbb" = false).
Proof.
  split; [|split; [|split]].
  - intros w path prefix entries r Hl H. unfold find_newest_matching_prefix in H.
    rewrite Hl in H. simpl in H. exact (newest_loop_spec w path prefix entries None r H).
  - intros w project scheme pp entries Hpp Hl Hnone. unfold find_xcresult_path.
    rewrite Hpp. simpl. unfold find_newest_matching_prefix. rewrite Hl. simpl.
    by rewrite newest_loop_no_match.
  - intros bundles. reflexivity.
  - intros scheme. split.
    + apply (scheme_prefix_one_dash scheme "Client" "aaa"); reflexivity.
    + apply (scheme_prefix_one_dash scheme "Client" "bbb"); reflexivity.
Qed.


Lemma find_newest_matching_prefix_spec_witness :
  ((Some "/dd/Client-bbb/Logs/Test/Test-Client-2021.xcresult" = None
    ∧ ∀ e, e ∈ ["Run-Client-2020.xcresult"; "Test-Client-2021.xcresult";
                "Run-Other-2022.xcresult"] → scheme_prefix "Client" e = false) ∨
   (∃ e, Some "/dd/Client-bbb/Logs/Test/Test-Client-2021.xcresult"
         = Some (path_join "/dd/Client-bbb/Logs/Test" e)
         ∧ e ∈ ["Run-Client-2020.xcresult"; "Test-Client-2021.xcresult";
                "Run-Other-2022.xcresult"]
         ∧ scheme_prefix "Client" e = true
         ∧ newest_among
             (client_world ["Run-Client-2020.xcresult"; "Test-Client-2021.xcresult";
                            "Run-Other-2022.xcresult"])
             "/dd/Client-bbb/Logs/Test" (scheme_prefix "Client")
             ["Run-Client-2020.xcresult"; "Test-Client-2021.xcresult";
              "Run-Other-2022.xcresult"]
             (path_join "/dd/Client-bbb/Logs/Test" e))) ∧
  find_xcresult_path (client_world ["Client-aaa"; "Client-bbb"]) "Client" "Client"
  = inl (LookupError ("Could not find xcresult bundle for " ++ "Client" ++ " in "
                      ++ path_join "/dd/Client-bbb" "Logs/Test")).
Proof.
  destruct find_newest_matching_prefix_spec as (H1 & H2 & _ & H4).
  split.
  - apply (H1 (client_world ["Run-Client-2020.xcresult"; "Test-Client-2021.xcresult";
                             "Run-Other-2022.xcresult"])
              "/dd/Client-bbb/Logs/Test" (scheme_prefix "Client")); by vm_compute.
  - apply (H2 _ "Client" "Client" "/dd/Client-bbb" ["Client-aaa"; "Client-bbb"]);
      [reflexivity | reflexivity |].
    intros e He. apply elem_of_cons in He as [-> | He]; [apply H4|].
    apply elem_of_cons in He as [-> | He]; [apply H4|]. by apply elem_of_nil in He.
Defined.

(** C6, as the claim states it, fails: in a log directory with the
    entries [Client-aaa] and [Client-bbb], the second the newer, the
    locator with the pattern of the scheme [Client] finds no entry and
    raises [LookupError]; it does not return [Client-bbb]. *)
Lemma find_xcresult_path_client_entries :
  listdir (client_world ["Client-aaa"; "Client-bbb"]) "/dd/Client-bbb/Logs/Test"
    = inr ["Client-aaa"; "Client-bbb"] ∧
  getmtime (client_world ["Client-aaa"; "Client-bbb"]) "/dd/Client-bbb/Logs/Test/Client-aaa"
    = inr 0 ∧
  getmtime (client_world ["Client-aaa"; "Client-bbb"]) "/dd/Client-bbb/Logs/Test/Client-bbb"
    = inr 1 ∧
  find_newest_matching_prefix (client_world ["Client-aaa"; "Client-bbb"])
    "/dd/Client-bbb/Logs/Test" (scheme_prefix "Client") = inr None ∧
  find_xcresult_path (client_world ["Client-aaa"; "Client-bbb"]) "Client" "Client"
  = inl (LookupError
           "Could not find xcresult bundle for Client in /dd/Client-bbb/Logs/Test").
Proof. repeat split; by vm_compute. Qed.


(** * Further properties *)

(** ** Strings and paths *)

Lemma split_comma_nonempty (s : string) : split_comma s ≠ [].
Proof.
  destruct s as [|c s]; simpl; [done|].
  case_bool_decide; [done|]. by destruct (split_comma s).
Qed.

Lemma join_comma_cons (c : ascii) (w : string) (ws : list string) :
  join_comma (String c w :: ws) = String c (join_comma (w :: ws)).
Proof. destruct ws; reflexivity. Qed.


Lemma join_comma_split_comma (s : string) : join_comma (split_comma s) = s.
Proof.
  induction s as [|c s IH]; simpl; [done|].
  destruct (split_comma s) as [|w ws] eqn:Hs; [by apply split_comma_nonempty in Hs|].
  case_bool_decide as Hc.
  - subst c. change (join_comma ("" :: w :: ws)) with ("" ++ "," ++ join_comma (w :: ws)).
    rewrite IH. by str_simpl.
  - by rewrite join_comma_cons, IH.
Qed.

(** X1.  The pieces of any string between its commas, joined again by
    commas as [export_log] joins its fields, are the string: splitting
    the log line in [main] loses nothing, whatever the fields hold. *)
Theorem join_split_comma (s : string) :
  py_join "," (JStr <$> split_comma s) = inr s.
Proof. by rewrite py_join_strings, join_comma_split_comma. Qed.

Lemma basename_app_slash (d n : string) :
  str_in "/" n = false → basename (d ++ String "/" n) = n.
Proof.
  intros Hn. unfold basename, rfind. rewrite rfind_from_last by done.
  replace (Z.to_nat (0 + Z.of_nat (String.length d) + 1))
    with (String.length (d ++ "/")) by (rewrite str_length_app; simpl; lia).
  rewrite (str_app_cons d n). by rewrite str_drop_app.
Qed.

Lemma basename_id (n : string) : str_in "/" n = false → basename n = n.
Proof. intros Hn. unfold basename, rfind. by rewrite rfind_from_absent. Qed.

(** X2.  A path that ends in a slash has an empty base name, so it is
    refused with [ValueError], also when the directory before the slash
    is named [.xcodeproj]. *)
Theorem project_from_project_path_trailing_slash (p : string) :
  project_from_project_path (p ++ "/")
  = inl (ValueError ((p ++ "/") ++ " is not a valid project path")).
Proof.
  unfold project_from_project_path.
  by rewrite (basename_app_slash p "").
Qed.

(** X3.  The project name depends on the base name of the path only:
    a path gives the name [r] exactly when its base name, taken as a
    path, gives [r]. *)
Theorem project_from_project_path_basename (path r : string) :
  project_from_project_path path = inr r ↔
  project_from_project_path (basename path) = inr r.
Proof.
  unfold project_from_project_path.
  rewrite (basename_id (basename path)) by apply basename_no_slash.
  destruct (splitext (basename path)) as [root ext].
  by case_bool_decide.
Qed.


(** ** The patterns of the locator *)

Lemma prefix_spec (p s : string) :
  String.prefix p s = true ↔ ∃ rest, s = p ++ rest.
Proof.
  revert s. induction p as [|a p IH]; intros s.
  - split; [|by destruct s]. intros _. exists s. by str_simpl.
  - destruct s as [|b s].
    + split; [done|]. intros [rest H]. by rewrite str_app_cons_l in H.
    + rewrite prefix_cons. destruct (ascii_dec a b) as [->|Hab].
      * rewrite IH. split; intros [rest H]; exists rest.
        -- rewrite str_app_cons_l. by f_equal.
        -- rewrite str_app_cons_l in H. by injection H.
      * split; [done|]. intros [rest H]. rewrite str_app_cons_l in H.
        injection H as H1 H2. by subst.
Qed.

Lemma str_in_split_first (c : ascii) (s : string) :
  str_in c s = false ∨ ∃ a b, s = a ++ String c b ∧ str_in c a = false.
Proof.
  induction s as [|x s IH]; simpl; [by left|].
  case_bool_decide as Hx.
  - subst x. right. by exists "", s.
  - destruct IH as [IH | (a & b & -> & Ha)]; [by left|].
    right. exists (String x a), b. split; [by rewrite str_app_cons_l|].
    simpl. by rewrite bool_decide_eq_false_2.
Qed.

Lemma skip_non_dash_app (a r : string) :
  str_in "-" a = false → skip_non_dash (a ++ String "-" r) = String "-" r.
Proof.
  intros Ha. induction a as [|c a IH]; str_simpl; [done|].
  simpl in Ha. apply orb_false_iff in Ha as [Hc Ha]. simpl. rewrite Hc. by apply IH.
Qed.

Lemma skip_non_dash_absent (e : string) :
  str_in "-" e = false → skip_non_dash e = "".
Proof.
  induction e as [|c e IH]; simpl; [done|].
  intros [Hc He]%orb_false_iff. rewrite Hc. by apply IH.
Qed.

(** X4.  An entry matches the pattern of [find_project_path] exactly
    when it is the project name, a dash, and anything after it.  The
    name is taken literally, and nothing bounds what follows the dash:
    the directory of a project [Client-Extra] matches the project
    [Client] as well. *)
Theorem project_prefix_spec (project entry : string) :
  project_prefix project entry = true ↔
  ∃ rest, entry = project ++ "-" ++ rest.
Proof.
  unfold project_prefix. rewrite prefix_spec.
  split; intros [rest H]; exists rest.
  - by rewrite H, <- str_app_assoc.
  - by rewrite H, <- str_app_assoc.
Qed.

(** X5.  An entry matches the pattern of [find_xcresult_path] exactly
    when it is a first part free of dashes, a dash, the scheme name, a
    dash, and anything after it: the scheme is what stands between the
    first and the second dash of the name. *)
Theorem scheme_prefix_spec (scheme entry : string) :
  scheme_prefix scheme entry = true ↔
  ∃ a rest, str_in "-" a = false ∧ entry = a ++ "-" ++ scheme ++ "-" ++ rest.
Proof.
  unfold scheme_prefix. rewrite prefix_spec. split.
  - intros [rest H].
    destruct (str_in_split_first "-" entry) as [He | (x & y & -> & Hx)].
    + rewrite skip_non_dash_absent in H by done. by rewrite str_app_cons_l in H.
    + rewrite skip_non_dash_app in H by done.
      exists x, rest. split; [done|].
      rewrite H, !str_app_cons_l, !str_app_nil_l.
      by rewrite <- str_app_cons.
  - intros (a & rest & Ha & ->). exists rest.
    rewrite str_app_cons_l, str_app_nil_l, skip_non_dash_app by done.
    rewrite !str_app_cons_l, !str_app_nil_l. f_equal. by rewrite <- str_app_cons.
Qed.


(** ** The locator *)

Section Newest.

Variable w : world.
Variable path : string.
Variable prefix : string → bool.

Lemma newest_loop_app (l1 l2 : list string) (acc : option string) :
  newest_loop w path prefix (l1 ++ l2) acc
  = let! a := newest_loop w path prefix l1 acc in newest_loop w path prefix l2 a.
Proof.
  revert acc. induction l1 as [|e l1 IH]; intros acc; [done|].
  rewrite <- app_comm_cons. simpl.
  destruct (prefix e); [|apply IH].
  destruct acc as [a|]; [|apply IH].
  destruct (getmtime w a) as [?|ta]; [done|]. simpl.
  destruct (getmtime w (path_join path e)) as [?|te]; [done|]. simpl.
  destruct (ta <? te); apply IH.
Qed.

Lemma newest_loop_below (te : Z) (l : list string) (acc : option string) :
  below w te acc →
  (∀ x, x ∈ l → prefix x = true → ∃ t, getmtime w (path_join path x) = inr t ∧ t < te) →
  ∃ acc', newest_loop w path prefix l acc = inr acc' ∧ below w te acc'.
Proof.
  revert acc. induction l as [|e l IH]; intros acc Hacc Hl; simpl; [by exists acc|].
  assert (∀ x, x ∈ l → prefix x = true →
               ∃ t, getmtime w (path_join path x) = inr t ∧ t < te) as Hl'.
  { intros x Hx. apply Hl. by right. }
  destruct (prefix e) eqn:Hpe; [|by apply IH].
  destruct (Hl e) as (t & Ht & Hlt); [by left | done |].
  destruct acc as [a|].
  - destruct Hacc as (ta & Hta & Hlta). rewrite Hta, Ht. simpl.
    destruct (ta <? t); apply IH; try done; [by exists t | by exists ta].
  - apply IH; [|done]. by exists t.
Qed.

Lemma newest_loop_keep (te : Z) (a : string) (l : list string) :
  getmtime w a = inr te →
  (∀ x, x ∈ l → prefix x = true → ∃ t, getmtime w (path_join path x) = inr t ∧ t <= te) →
  newest_loop w path prefix l (Some a) = inr (Some a).
Proof.
  intros Ha. induction l as [|e l IH]; intros Hl; simpl; [done|].
  assert (newest_loop w path prefix l (Some a) = inr (Some a)) as IH'.
  { apply IH. intros x Hx. apply Hl. by right. }
  destruct (prefix e) eqn:Hpe; [|done].
  destruct (Hl e) as (t & Ht & Hle); [by left | done |].
  rewrite Ha, Ht. simpl.
  by rewrite (proj2 (Z.ltb_ge te t)) by lia.
Qed.

End Newest.

(** X6.  When one entry of the directory matches the pattern, it is the
    result, and no modification time is read: the result is the same
    whatever [os.path.getmtime] would give or raise. *)
Theorem find_newest_matching_prefix_single (w : world) (path : string)
    (prefix : string → bool) (l1 l2 : list string) (e : string) :
  listdir w path = inr (l1 ++ e :: l2)%list →
  (∀ x, x ∈ l1 → prefix x = false) →
  prefix e = true →
  (∀ x, x ∈ l2 → prefix x = false) →
  find_newest_matching_prefix w path prefix = inr (Some (path_join path e)).
Proof.
  intros Hdir H1 He H2. unfold find_newest_matching_prefix. rewrite Hdir. simpl.
  rewrite newest_loop_app, newest_loop_no_match by done. simpl.
  rewrite He. by apply newest_loop_no_match.
Qed.

Lemma find_newest_matching_prefix_single_witness :
  find_newest_matching_prefix
    (dir_world ["Build"; "Client-abc"; "Index"] (λ _, raise OSError))
    "/dd" (project_prefix "Client")
  = inr (Some (path_join "/dd" "Client-abc")).
Proof.
  apply (find_newest_matching_prefix_single
           (dir_world ["Build"; "Client-abc"; "Index"] (λ _, raise OSError))
           "/dd" (project_prefix "Client") ["Build"] ["Index"] "Client-abc").
  - reflexivity.
  - intros x Hx. apply list_elem_of_singleton in Hx as ->. by vm_compute.
  - by vm_compute.
  - intros x Hx. apply list_elem_of_singleton in Hx as ->. by vm_compute.
Defined.

(** X7.  Among the matching entries the first of the newest is the
    result: an entry that every earlier matching entry is older than,
    and that no later matching entry is newer than, is returned.  Of
    two entries with the same modification time the earlier one in the
    listing is kept. *)
Theorem find_newest_matching_prefix_first_newest (w : world) (path : string)
    (prefix : string → bool) (l1 l2 : list string) (e : string) (te : Z) :
  listdir w path = inr (l1 ++ e :: l2)%list →
  prefix e = true →
  getmtime w (path_join path e) = inr te →
  (∀ x, x ∈ l1 → prefix x = true →
        ∃ t, getmtime w (path_join path x) = inr t ∧ t < te) →
  (∀ x, x ∈ l2 → prefix x = true →
        ∃ t, getmtime w (path_join path x) = inr t ∧ t <= te) →
  find_newest_matching_prefix w path prefix = inr (Some (path_join path e)).
Proof.
  intros Hdir He Hte H1 H2. unfold find_newest_matching_prefix. rewrite Hdir. simpl.
  rewrite newest_loop_app.
  destruct (newest_loop_below w path prefix te l1 None) as (acc & -> & Hacc); [done | done |].
  simpl. rewrite He.
  destruct acc as [a|].
  - destruct Hacc as (ta & Hta & Hlt). rewrite Hta, Hte. simpl.
    rewrite (proj2 (Z.ltb_lt ta te)) by done.
    by apply (newest_loop_keep w path prefix te).
  - by apply (newest_loop_keep w path prefix te).
Qed.

Lemma find_newest_matching_prefix_first_newest_witness :
  find_newest_matching_prefix
    (dir_world ["Client-old"; "Client-one"; "Other-xyz"; "Client-two"]
       (λ p, if bool_decide (p = "/dd/Client-old") then ret 1 else ret 5))
    "/dd" (project_prefix "Client")
  = inr (Some (path_join "/dd" "Client-one")).
Proof.
  apply (find_newest_matching_prefix_first_newest
           (dir_world ["Client-old"; "Client-one"; "Other-xyz"; "Client-two"]
              (λ p, if bool_decide (p = "/dd/Client-old") then ret 1 else ret 5))
           "/dd" (project_prefix "Client")
           ["Client-old"] ["Other-xyz"; "Client-two"] "Client-one" 5).
  - reflexivity.
  - by vm_compute.
  - by vm_compute.
  - intros x Hx _. apply list_elem_of_singleton in Hx as ->. exists 1. by vm_compute.
  - intros x Hx Hp. exists 5. split; [|lia].
    apply elem_of_cons in Hx as [-> | Hx]; [by vm_compute in Hp|].
    apply list_elem_of_singleton in Hx as ->. by vm_compute.
Defined.


(** X8.  A bundle path that [find_xcresult_path] returns is made of
    three parts under the derived data directory: an entry of that
    directory that matches the project, the directory [Logs/Test], and
    an entry of the latter that matches the scheme. *)
Theorem find_xcresult_path_success (w : world) (project scheme r : string) :
  find_xcresult_path w project scheme = inr r →
  ∃ ds d es e,
    listdir w (derived_data w) = inr ds ∧ d ∈ ds ∧ project_prefix project d = true ∧
    listdir w (path_join (path_join (derived_data w) d) "Logs/Test") = inr es ∧
    e ∈ es ∧ scheme_prefix scheme e = true ∧
    r = path_join (path_join (path_join (derived_data w) d) "Logs/Test") e.
Proof.
  unfold find_xcresult_path, find_project_path, find_newest_matching_prefix.
  intros H.
  destruct (listdir w (derived_data w)) as [?|ds] eqn:Hds; [done|]. simpl in H.
  destruct (newest_loop w (derived_data w) (project_prefix project) ds None)
    as [?|pp] eqn:Hpp; [done|]. simpl in H.
  apply newest_loop_spec in Hpp as [[-> _] | (d & -> & Hd & Hpd & _)]; [done|].
  simpl in H.
  destruct (listdir w (path_join (path_join (derived_data w) d) "Logs/Test"))
    as [?|es] eqn:Hes; [done|]. simpl in H.
  destruct (newest_loop w (path_join (path_join (derived_data w) d) "Logs/Test")
              (scheme_prefix scheme) es None) as [?|x] eqn:Hx; [done|]. simpl in H.
  apply newest_loop_spec in Hx as [[-> _] | (e & -> & He & Hpe & _)]; [done|].
  injection H as <-. by exists ds, d, es, e.
Qed.

Lemma find_xcresult_path_success_witness :
  ∃ ds d es e,
    listdir (client_world ["Run-Client-2020.xcresult"; "Test-Client-2021.xcresult"])
      (derived_data (client_world ["Run-Client-2020.xcresult"; "Test-Client-2021.xcresult"]))
    = inr ds ∧ d ∈ ds ∧ project_prefix "Client" d = true ∧
    listdir (client_world ["Run-Client-2020.xcresult"; "Test-Client-2021.xcresult"])
      (path_join (path_join
         (derived_data (client_world ["Run-Client-2020.xcresult"; "Test-Client-2021.xcresult"]))
         d) "Logs/Test") = inr es ∧
    e ∈ es ∧ scheme_prefix "Client" e = true ∧
    "/dd/Client-bbb/Logs/Test/Test-Client-2021.xcresult"
    = path_join (path_join (path_join
        (derived_data (client_world ["Run-Client-2020.xcresult"; "Test-Client-2021.xcresult"]))
        d) "Logs/Test") e.
Proof.
  apply (find_xcresult_path_success
           (client_world ["Run-Client-2020.xcresult"; "Test-Client-2021.xcresult"])
           "Client" "Client").
  by vm_compute.
Defined.

(** X9.  When no entry of the derived data directory matches the
    project, [find_xcresult_path] raises the [LookupError] of
    [find_project_path], which names the project and the directory. *)
Theorem find_xcresult_path_no_project (w : world) (project scheme : string)
    (ds : list string) :
  listdir w (derived_data w) = inr ds →
  (∀ d, d ∈ ds → project_prefix project d = false) →
  find_xcresult_path w project scheme
  = inl (LookupError ("Could not find project derived data for " ++ project
                      ++ " in " ++ derived_data w)).
Proof.
  intros Hds Hno.
  unfold find_xcresult_path, find_project_path, find_newest_matching_prefix.
  rewrite Hds. simpl. by rewrite newest_loop_no_match.
Qed.

Lemma find_xcresult_path_no_project_witness :
  find_xcresult_path (dir_world ["Other-abc"; "Client"] (λ _, ret 0)) "Client" "Client"
  = inl (LookupError ("Could not find project derived data for " ++ "Client"
                      ++ " in " ++ derived_data (dir_world ["Other-abc"; "Client"] (λ _, ret 0)))).
Proof.
  apply (find_xcresult_path_no_project
           (dir_world ["Other-abc"; "Client"] (λ _, ret 0)) "Client" "Client"
           ["Other-abc"; "Client"]).
  - reflexivity.
  - intros d Hd. apply elem_of_cons in Hd as [-> | Hd]; [by vm_compute|].
    apply list_elem_of_singleton in Hd as ->. by vm_compute.
Defined.

(** X10.  When the project directory is found and no entry of its
    [Logs/Test] directory matches the scheme, [find_xcresult_path]
    raises a [LookupError] that names the scheme and that directory. *)
Theorem find_xcresult_path_no_bundle (w : world) (project scheme pp : string)
    (es : list string) :
  find_project_path w project = inr pp →
  listdir w (path_join pp "Logs/Test") = inr es →
  (∀ e, e ∈ es → scheme_prefix scheme e = false) →
  find_xcresult_path w project scheme
  = inl (LookupError ("Could not find xcresult bundle for " ++ scheme
                      ++ " in " ++ path_join pp "Logs/Test")).
Proof.
  intros Hpp Hes Hno.
  unfold find_xcresult_path, find_newest_matching_prefix.
  rewrite Hpp. simpl. rewrite Hes. simpl. by rewrite newest_loop_no_match.
Qed.

Lemma find_xcresult_path_no_bundle_witness :
  find_xcresult_path (client_world ["Client.xcresult"; "Test-Other-1.xcresult"])
    "Client" "Client"
  = inl (LookupError ("Could not find xcresult bundle for " ++ "Client"
                      ++ " in " ++ path_join "/dd/Client-bbb" "Logs/Test")).
Proof.
  apply (find_xcresult_path_no_bundle
           (client_world ["Client.xcresult"; "Test-Other-1.xcresult"])
           "Client" "Client" "/dd/Client-bbb"
           ["Client.xcresult"; "Test-Other-1.xcresult"]).
  - by vm_compute.
  - by vm_compute.
  - intros e He. apply elem_of_cons in He as [-> | He]; [by vm_compute|].
    apply list_elem_of_singleton in He as ->. by vm_compute.
Defined.


(** ** The aggregator and the records *)

Lemma collect_metrics_append (ms : list json) (result : list json) :
  collect_metrics ms result
  = let! out := collect_metrics ms [] in ret (result ++ out)%list.
Proof.
  revert result. induction ms as [|m ms IH]; intros result; simpl.
  - by rewrite app_nil_r.
  - destruct (metric_output m) as [e|o]; simpl; [done|].
    rewrite (IH (result ++ [JStr o])%list), (IH [JStr o]).
    destruct (collect_metrics ms []) as [e|out]; simpl; [done|].
    by rewrite <- app_assoc.
Qed.

Lemma log_header_append (doc : json) (result : list json) :
  log_header doc result
  = let! out := log_header doc [] in ret (result ++ out)%list.
Proof.
  unfold log_header.
  destruct (py_get doc "identifier") as [e|tn]; simpl; [done|].
  destruct (py_get doc "duration") as [e|du]; simpl.
  - destruct (truthy tn); simpl; [|done].
    by destruct (getitem_key tn "_value").
  - destruct (truthy tn); simpl.
    + destruct (getitem_key tn "_value") as [e|v]; simpl; [done|].
      destruct (truthy du); simpl; [|done].
      destruct (getitem_key du "_value") as [e|x]; simpl; [done|].
      destruct (py_float x) as [e|f]; simpl; [done|].
      by rewrite <- app_assoc.
    + destruct (truthy du); simpl; [|by rewrite app_nil_r].
      destruct (getitem_key du "_value") as [e|x]; simpl; [done|].
      by destruct (py_float x) as [e|f].
Qed.

(** X11.  [collect_log_output] only appends to the list it is given:
    what it leaves in [result] is [result] followed by what it leaves
    in an empty list, and it fails on the one exactly when it fails on
    the other, with the same exception. *)
Theorem collect_log_output_append (doc : json) (result : list json) :
  collect_log_output doc result
  = let! out := collect_log_output doc [] in ret (result ++ out)%list.
Proof.
  rewrite !collect_log_output_header.
  rewrite (log_header_append doc result).
  destruct (log_header doc []) as [e|h]; simpl; [done|].
  destruct (py_get doc "performanceMetrics") as [e|pm]; simpl; [done|].
  assert ((let! metrics := py_get pm "_values" in
           let! ms := py_iter metrics in collect_metrics ms (result ++ h)%list)
          = let! out := (let! metrics := py_get pm "_values" in
                         let! ms := py_iter metrics in collect_metrics ms h) in
            ret (result ++ out)%list) as Hpm.
  { destruct (py_get pm "_values") as [e|metrics]; simpl; [done|].
    destruct (py_iter metrics) as [e|ms]; simpl; [done|].
    rewrite (collect_metrics_append ms (result ++ h)%list), (collect_metrics_append ms h).
    destruct (collect_metrics ms []) as [e|out]; simpl; [done|].
    by rewrite <- app_assoc. }
  destruct pm; try exact Hpm. done.
Qed.

(** X12.  Every dictionary that the loop of [main] builds has the key
    [testName], and no key outside the nine labels: the split of a log
    line has a first piece also when the line is empty, so a log without
    an identifier still gives a test name, and fields beyond the ninth
    are dropped. *)
Theorem main_step_keys (w : world) (path : string) (sid : json)
    (t : list event) (d : gmap string string) :
  main_step w path sid = (t, inr d) →
  (∃ v, d !! "testName" = Some v) ∧ (∀ k, is_Some (d !! k) → k ∈ defaultValues).
Proof.
  intros H. unfold main_step in H.
  apply io_bind_inr_inv in H as (t1 & log & t2 & _ & H & _).
  apply io_bind_inr_inv in H as (t3 & dev & t4 & _ & H & _).
  apply io_bind_inr_inv in H as (t5 & line & t6 & _ & H & _).
  apply io_bind_inr_inv in H as (t7 & u & t8 & _ & H & _).
  apply io_bind_inr_inv in H as (t9 & u' & t10 & _ & H & _).
  assert (dict_of (zip_lists defaultValues (split_comma log)) = d) as <-.
  { pose proof (f_equal snd H) as Hd.
    change (@inr exn _ (dict_of (zip_lists defaultValues (split_comma log))) = inr d) in Hd.
    congruence. }
  split.
  - unfold dict_of.
    rewrite (dict_fold_zip _ _ _ 0%nat "testName" defaultValues_NoDup) by done.
    destruct (split_comma log) as [|v vs] eqn:Hs; [by apply split_comma_nonempty in Hs|].
    by exists v.
  - intros k [v Hk]. destruct (decide (k ∈ defaultValues)) as [|Hn]; [done|].
    unfold dict_of in Hk. rewrite dict_fold_other in Hk; [done|].
    intros Hin. by apply zip_lists_keys in Hin.
Qed.

Lemma main_step_keys_witness :
  (∃ v, dict_of (zip_lists defaultValues (split_comma "T/test(),12.35,2.0")) !! "testName"
        = Some v) ∧
  (∀ k, is_Some (dict_of (zip_lists defaultValues (split_comma "T/test(),12.35,2.0")) !! k) →
        k ∈ defaultValues).
Proof.
  apply (main_step_keys sample_run "r.xcresult" (JStr "0~a")
           ([Run (tool_cmd ["get"; "--path"; "r.xcresult"; "--id"; "0~a"])]
            ++ [Run (tool_cmd ["get"; "--path"; "r.xcresult"])]
            ++ [Stdout (Text ("iPhone13,2" ++ "," ++ "T/test(),12.35,2.0" ++ newline));
                Stdout (ReprDict (dict_of (zip_lists defaultValues
                                             (split_comma "T/test(),12.35,2.0"))))])%list).
  by vm_compute.
Defined.


(** ** The reader *)

Lemma getitem_idx_last (l : list json) :
  getitem_idx (JArr l) (-1)
  = match last l with Some a => inr a | None => inl IndexError end.
Proof.
  unfold getitem_idx. change (-1 <? 0) with true. cbv iota.
  destruct l as [|x l] using rev_ind; [done|].
  rewrite last_snoc, length_app. simpl length.
  replace (-1 + Z.of_nat (length l + 1)) with (Z.of_nat (length l)) by lia.
  replace (Z.of_nat (length l) <? 0) with false by (symmetry; apply Z.ltb_ge; lia).
  by rewrite Nat2Z.id, list_lookup_middle.
Qed.

Lemma descend_last (doc : json) (acts : list json) (p q : list selector) :
  descend doc p = inr (JArr acts) →
  descend doc (p ++ Idx (-1) :: q)
  = match last acts with Some a => descend a q | None => inl IndexError end.
Proof.
  intros H. rewrite descend_app, H.
  unfold bind at 1. unfold descend at 1. fold descend. unfold getitem.
  rewrite getitem_idx_last. by destruct (last acts).
Qed.

(** X13.  The test identifier and the device model are read from the
    last action of the bundle, whatever the actions before it hold; a
    bundle with an empty list of actions gives [IndexError].  Each of
    the two runs the tool once. *)
Theorem reader_last_action (w : world) (path : string) (doc : json) (acts : list json) :
  check_output w (tool_cmd ["get"; "--path"; path]) = inr doc →
  descend doc [Key "actions"; Key "_values"] = inr (JArr acts) →
  find_test_id w path
  = ([Run (tool_cmd ["get"; "--path"; path])],
     match last acts with
     | Some a => descend a [Key "actionResult"; Key "testsRef"; Key "id"; Key "_value"]
     | None => inl IndexError
     end) ∧
  find_device_info w path
  = ([Run (tool_cmd ["get"; "--path"; path])],
     match last acts with
     | Some a => descend a [Key "runDestination"; Key "targetDeviceRecord";
                            Key "modelUTI"; Key "_value"]
     | None => inl IndexError
     end).
Proof.
  intros Hw Ha. unfold find_test_id, find_device_info, xcresulttool_json.
  unfold tool_cmd in Hw |- *. simpl in Hw.
  cbn -[descend]. rewrite Hw. cbn -[descend].
  split; f_equal.
  - by apply (descend_last doc acts [Key "actions"; Key "_values"]).
  - by apply (descend_last doc acts [Key "actions"; Key "_values"]).
Qed.

Lemma reader_last_action_witness :
  find_test_id (sample_world (JObj {[ "actions" := sample_values
      [JNull; JObj {[ "actionResult" :=
                       JObj {[ "testsRef" := JObj {[ "id" := sample_value "0~t" ]} ]} ]}] ]}))
    "r.xcresult"
  = ([Run (tool_cmd ["get"; "--path"; "r.xcresult"])],
     match last [JNull; JObj {[ "actionResult" :=
                       JObj {[ "testsRef" := JObj {[ "id" := sample_value "0~t" ]} ]} ]}] with
     | Some a => descend a [Key "actionResult"; Key "testsRef"; Key "id"; Key "_value"]
     | None => inl IndexError
     end) ∧
  find_device_info (sample_world (JObj {[ "actions" := sample_values
      [JNull; JObj {[ "actionResult" :=
                       JObj {[ "testsRef" := JObj {[ "id" := sample_value "0~t" ]} ]} ]}] ]}))
    "r.xcresult"
  = ([Run (tool_cmd ["get"; "--path"; "r.xcresult"])],
     match last [JNull; JObj {[ "actionResult" :=
                       JObj {[ "testsRef" := JObj {[ "id" := sample_value "0~t" ]} ]} ]}] with
     | Some a => descend a [Key "runDestination"; Key "targetDeviceRecord";
                            Key "modelUTI"; Key "_value"]
     | None => inl IndexError
     end).
Proof.
  apply (reader_last_action
           (sample_world (JObj {[ "actions" := sample_values
              [JNull; JObj {[ "actionResult" :=
                 JObj {[ "testsRef" := JObj {[ "id" := sample_value "0~t" ]} ]} ]}] ]}))
           "r.xcresult"
           (JObj {[ "actions" := sample_values
              [JNull; JObj {[ "actionResult" :=
                 JObj {[ "testsRef" := JObj {[ "id" := sample_value "0~t" ]} ]} ]}] ]})
           [JNull; JObj {[ "actionResult" :=
                 JObj {[ "testsRef" := JObj {[ "id" := sample_value "0~t" ]} ]} ]}]).
  - reflexivity.
  - by vm_compute.
Defined.


(** ** The events of a run *)


Lemma io_bind_ret {A B : Type} (a : A) (k : A → io B) :
  io_bind (io_ret a) k = k a.
Proof. unfold io_bind, io_ret. by destruct (k a). Qed.

Section Events.

Variable w : world.
Variable p : string.


















End Events.



Lemma runs_app (t1 t2 : list event) : runs (t1 ++ t2) = (runs t1 + runs t2)%nat.
Proof.
  induction t1 as [|ev t1 IH]; [done|].
  rewrite <- app_comm_cons. destruct ev; simpl; by rewrite IH.
Qed.

Lemma lift_inr_inv {A : Type} (r : res A) (t : list event) (a : A) :
  lift r = (t, inr a) → t = [] ∧ r = inr a.
Proof. unfold lift. by intros [= <- ->]. Qed.

Lemma tool_success (w : world) (args : list string) (t : list event) (doc : json) :
  xcresulttool_json w args = (t, inr doc) → runs t = 1%nat.
Proof.
  unfold xcresulttool_json. intros H.
  apply io_bind_inr_inv in H as (t1 & u & t2 & [= <- _] & H & ->).
  apply lift_inr_inv in H as [-> _]. done.
Qed.

Lemma tool_lift_success {A : Type} (w : world) (args : list string) (f : json → res A)
    (t : list event) (a : A) :
  io_bind (xcresulttool_json w args) (λ doc, lift (f doc)) = (t, inr a) → runs t = 1%nat.
Proof.
  intros H. apply io_bind_inr_inv in H as (t1 & doc & t2 & H1 & H2 & ->).
  apply tool_success in H1. apply lift_inr_inv in H2 as [-> _].
  by rewrite runs_app, H1.
Qed.

Lemma find_summary_id_runs (w : world) (p : string) (test_id : json) (n : Z)
    (t : list event) (ids : list json) :
  find_summary_id w p test_id n = (t, inr ids) → runs t = 1%nat.
Proof.
  unfold find_summary_id. intros H.
  apply io_bind_inr_inv in H as (t1 & id & t2 & H1 & H & ->).
  apply lift_inr_inv in H1 as [-> _].
  apply io_bind_inr_inv in H as (t3 & doc & t4 & H3 & H & ->).
  apply tool_success in H3.
  apply io_bind_inr_inv in H as (t5 & action & t6 & H5 & H & ->).
  apply lift_inr_inv in H5 as [-> _].
  apply io_bind_inr_inv in H as (t7 & res & t8 & H7 & H & ->).
  apply lift_inr_inv in H7 as [-> _].
  apply io_bind_inr_inv in H as (t9 & u & t10 & [= <- _] & [= <- _] & ->).
  rewrite !runs_app, H3. done.
Qed.

Lemma main_step_runs (w : world) (p : string) (sid : json)
    (t : list event) (d : gmap string string) :
  main_step w p sid = (t, inr d) → runs t = 2%nat.
Proof.
  unfold main_step. intros H.
  apply io_bind_inr_inv in H as (t1 & log & t2 & H1 & H & ->).
  assert (runs t1 = 1%nat) as R1.
  { unfold export_log in H1.
    apply io_bind_inr_inv in H1 as (s1 & id & s2 & Hs & H1 & ->).
    apply lift_inr_inv in Hs as [-> _].
    by apply tool_lift_success in H1. }
  apply io_bind_inr_inv in H as (t3 & dev & t4 & H3 & H & ->).
  assert (runs t3 = 1%nat) as R3 by (by apply tool_lift_success in H3).
  apply io_bind_inr_inv in H as (t5 & line & t6 & H5 & H & ->).
  apply lift_inr_inv in H5 as [-> _].
  apply io_bind_inr_inv in H as (t7 & u & t8 & [= <- _] & H & ->).
  apply io_bind_inr_inv in H as (t9 & u' & t10 & [= <- _] & [= <- _] & ->).
  rewrite !runs_app, R1, R3. done.
Qed.

Lemma main_loop_runs (w : world) (p : string) (ids : list json)
    (acc data : list (gmap string string)) (t : list event) :
  main_loop w p ids acc = (t, inr data) →
  runs t = (2 * length ids)%nat ∧ length data = (length acc + length ids)%nat.
Proof.
  revert acc t. induction ids as [|sid ids IH]; intros acc t H; simpl in H.
  - injection H as <- <-. simpl. lia.
  - apply io_bind_inr_inv in H as (t1 & d & t2 & H1 & H & ->).
    apply main_step_runs in H1. apply IH in H as [H2 H3].
    rewrite runs_app, H1, H2, H3, length_app. simpl. lia.
Qed.

(** X15.  A run of [main] that succeeds has run the tool three times
    and twice more for every record written to [data.txt]: once for
    the log of the test, and once more for the description of the whole
    bundle, which is fetched again for each test to read the device. *)
Theorem main_success_runs (w : world) (args : list string) (t : list event) :
  main w args = (t, inr tt) →
  ∃ t' data, t = (t' ++ [WriteFile "data.txt" data])%list ∧
             runs t' = (3 + 2 * length data)%nat.
Proof.
  unfold main. destruct args as [|a args]; [done|]. intros H.
  apply io_bind_inr_inv in H as (t1 & pp & t2 & H1 & H & ->).
  apply lift_inr_inv in H1 as [-> _].
  apply io_bind_inr_inv in H as (t3 & project & t4 & H3 & H & ->).
  apply lift_inr_inv in H3 as [-> _].
  apply io_bind_inr_inv in H as (t5 & scheme & t6 & H5 & H & ->).
  apply lift_inr_inv in H5 as [-> _].
  apply io_bind_inr_inv in H as (t7 & p & t8 & H7 & H & ->).
  assert (t7 = []) as ->.
  { destruct (parse_xcodebuild_flags (a :: args) !! "-resultBundlePath");
      [by injection H7 as <- _ | by apply lift_inr_inv in H7 as [-> _]]. }
  apply io_bind_inr_inv in H as (s1 & test_id & s2 & Hs1 & H & ->).
  apply tool_lift_success in Hs1.
  apply io_bind_inr_inv in H as (s3 & tests_count & s4 & Hs3 & H & ->).
  apply tool_lift_success in Hs3.
  apply io_bind_inr_inv in H as (s5 & line & s6 & Hs5 & H & ->).
  apply lift_inr_inv in Hs5 as [-> _].
  apply io_bind_inr_inv in H as (s7 & u & s8 & [= <- _] & H & ->).
  apply io_bind_inr_inv in H as (s9 & n & s10 & Hs9 & H & ->).
  apply lift_inr_inv in Hs9 as [-> _].
  apply io_bind_inr_inv in H as (s11 & ids & s12 & Hs11 & H & ->).
  apply find_summary_id_runs in Hs11.
  apply io_bind_inr_inv in H as (s13 & data & s14 & Hs13 & [= <-] & ->).
  apply main_loop_runs in Hs13 as [Hr Hl].
  exists (s1 ++ s3 ++ [Stdout (Text (line ++ newline))] ++ s11 ++ s13)%list, data.
  split.
  - cbn [app]. rewrite <- ?app_assoc. cbn [app]. by rewrite <- ?app_assoc.
  - rewrite !runs_app, Hs1, Hs3, Hs11, Hr, Hl. simpl. lia.
Qed.

Lemma main_success_runs_witness :
  ∃ t' data,
    (main sample_run ["-project"; "Client.xcodeproj"; "-scheme"; "Client";
                      "-resultBundlePath"; "r.xcresult"]).1
    = (t' ++ [WriteFile "data.txt" data])%list ∧
    runs t' = (3 + 2 * length data)%nat.
Proof.
  apply (main_success_runs sample_run
           ["-project"; "Client.xcodeproj"; "-scheme"; "Client";
            "-resultBundlePath"; "r.xcresult"]).
  by vm_compute.
Defined.


(** ** The main flow, further *)

Lemma io_bind_ext {A B : Type} (m : io A) (k1 k2 : A → io B) :
  (∀ a, k1 a = k2 a) → io_bind m k1 = io_bind m k2.
Proof. intros H. destruct m as [t [e|a]]; simpl; [done|]. by rewrite H. Qed.

Section TwoWorlds.

Variables w1 w2 : world.
Hypothesis same_tool : ∀ cmd, check_output w1 cmd = check_output w2 cmd.

Lemma xcresulttool_json_ext (args : list string) :
  xcresulttool_json w1 args = xcresulttool_json w2 args.
Proof. unfold xcresulttool_json. by rewrite same_tool. Qed.

Lemma find_test_id_ext (p : string) : find_test_id w1 p = find_test_id w2 p.
Proof. unfold find_test_id. by rewrite xcresulttool_json_ext. Qed.

Lemma find_test_count_ext (p : string) : find_test_count w1 p = find_test_count w2 p.
Proof. unfold find_test_count. by rewrite xcresulttool_json_ext. Qed.

Lemma find_summary_id_ext (p : string) (test_id : json) (n : Z) :
  find_summary_id w1 p test_id n = find_summary_id w2 p test_id n.
Proof.
  unfold find_summary_id. apply io_bind_ext. intros id.
  by rewrite xcresulttool_json_ext.
Qed.

Lemma main_step_ext (p : string) (sid : json) : main_step w1 p sid = main_step w2 p sid.
Proof.
  unfold main_step.
  assert (export_log w1 p sid = export_log w2 p sid) as ->.
  { unfold export_log. apply io_bind_ext. intros id. by rewrite xcresulttool_json_ext. }
  apply io_bind_ext. intros log.
  unfold find_device_info. by rewrite xcresulttool_json_ext.
Qed.

Lemma main_loop_ext (p : string) (ids : list json) (acc : list (gmap string string)) :
  main_loop w1 p ids acc = main_loop w2 p ids acc.
Proof.
  revert acc. induction ids as [|sid ids IH]; intros acc; simpl; [done|].
  rewrite main_step_ext. by apply io_bind_ext.
Qed.

End TwoWorlds.

(** X16.  With [-resultBundlePath] among the flags captured, the
    locator is bypassed: the run depends on the environment through the
    output of the tool only, and is the same whatever the directories
    hold, whatever their modification times, wherever the derived data
    directory is. *)
Theorem main_bundle_path_bypass (w1 w2 : world) (args : list string) (p : string) :
  parse_xcodebuild_flags args !! "-resultBundlePath" = Some p →
  (∀ cmd, check_output w1 cmd = check_output w2 cmd) →
  main w1 args = main w2 args.
Proof.
  intros Hp Hc. unfold main. destruct args as [|a args]; [done|].
  rewrite Hp.
  do 3 (apply io_bind_ext; intros ?).
  rewrite !io_bind_ret.
  rewrite (find_test_id_ext w1 w2 Hc). apply io_bind_ext. intros test_id.
  rewrite (find_test_count_ext w1 w2 Hc).
  do 4 (apply io_bind_ext; intros ?).
  rewrite (find_summary_id_ext w1 w2 Hc). apply io_bind_ext. intros ids.
  by rewrite (main_loop_ext w1 w2 Hc).
Qed.

Lemma main_bundle_path_bypass_witness :
  main sample_run ["-project"; "Client.xcodeproj"; "-scheme"; "Client";
                   "-resultBundlePath"; "r.xcresult"]
  = main {| listdir := λ _, ret ["Client-abc"];
            getmtime := λ _, ret 7;
            check_output := check_output sample_run;
            derived_data := "/elsewhere" |}
      ["-project"; "Client.xcodeproj"; "-scheme"; "Client";
       "-resultBundlePath"; "r.xcresult"].
Proof.
  apply (main_bundle_path_bypass sample_run
           {| listdir := λ _, ret ["Client-abc"];
              getmtime := λ _, ret 7;
              check_output := check_output sample_run;
              derived_data := "/elsewhere" |}
           ["-project"; "Client.xcodeproj"; "-scheme"; "Client";
            "-resultBundlePath"; "r.xcresult"] "r.xcresult").
  - by vm_compute.
  - intros cmd. reflexivity.
Defined.








(** ** Paths and logs, further *)

Lemma endswith_slash_split (a : string) :
  endswith_slash a = true → ∃ a', a = a' ++ "/".
Proof.
  induction a as [|c r IH]; [done|]. destruct r as [|c' r'].
  - simpl. intros Hc. apply bool_decide_eq_true_1 in Hc as ->. by exists "".
  - intros H. change (endswith_slash (String c' r') = true) in H.
    destruct (IH H) as [a' Ha']. exists (String c a').
    by rewrite str_app_cons_l, <- Ha'.
Qed.

(** X19.  Joining a directory and an entry that holds no slash, as the
    locator does with the entries of a listing, gives a path whose base
    name is the entry again, whether or not the directory ends in a
    slash. *)
Theorem basename_path_join (d e : string) :
  str_in "/" e = false → basename (path_join d e) = e.
Proof.
  intros He. unfold path_join.
  assert (String.prefix "/" e = false) as ->.
  { destruct e as [|c e]; [done|]. rewrite prefix_cons.
    simpl in He. apply orb_false_iff in He as [Hc _].
    destruct (ascii_dec "/" c) as [<-|]; [|done].
    by rewrite bool_decide_eq_true_2 in Hc. }
  case_bool_decide as Hd; simpl.
  - subst d. rewrite str_app_nil_l. by apply basename_id.
  - destruct (endswith_slash d) eqn:Hs.
    + destruct (endswith_slash_split d Hs) as [a' ->].
      rewrite <- str_app_assoc, str_app_cons_l, str_app_nil_l.
      by apply basename_app_slash.
    + rewrite str_app_cons_l, str_app_nil_l. by apply basename_app_slash.
Qed.

Lemma basename_path_join_witness :
  basename (path_join "/dd/Client-bbb/Logs/Test" "Test-Client-2021.xcresult")
  = "Test-Client-2021.xcresult".
Proof.
  apply (basename_path_join "/dd/Client-bbb/Logs/Test" "Test-Client-2021.xcresult").
  by vm_compute.
Defined.

(** X20.  One metric group that cannot be averaged fails the whole log:
    when the groups before it can be averaged and it raises [e], the
    rendering of the log raises [e], and no line is produced from the
    name, the duration and the groups already read. *)
Theorem render_log_group_failure (doc pm : json) (h good rest : list json)
    (g : json) (e : exn) :
  log_header doc [] = inr h →
  py_get doc "performanceMetrics" = inr pm →
  pm ≠ JNull →
  py_get pm "_values" = inr (JArr (good ++ g :: rest)) →
  Forall (λ x, ∃ s, metric_output x = inr s) good →
  metric_output g = inl e →
  render_log doc = inl e.
Proof.
  intros Hh Hpm Hnn Hv Hgood Hg. unfold render_log.
  rewrite collect_log_output_header, Hh. simpl. rewrite Hpm. simpl.
  assert ((let! metrics := py_get pm "_values" in
           let! ms := py_iter metrics in collect_metrics ms h) = inl e) as Hc.
  { rewrite Hv. simpl. by apply collect_metrics_failure. }
  destruct pm; try (by rewrite Hc). done.
Qed.

Lemma render_log_group_failure_witness :
  render_log (sample_log "T/test()" "12.3456"
                [sample_group ["1.0"; "2.0"]; sample_group []; sample_group ["3.0"]])
  = inl ZeroDivisionError.
Proof.
  apply (render_log_group_failure
           (sample_log "T/test()" "12.3456"
              [sample_group ["1.0"; "2.0"]; sample_group []; sample_group ["3.0"]])
           (sample_values [sample_group ["1.0"; "2.0"]; sample_group []; sample_group ["3.0"]])
           [JStr "T/test()"; JStr "12.35"]
           [sample_group ["1.0"; "2.0"]] [sample_group ["3.0"]] (sample_group [])).
  - by vm_compute.
  - by vm_compute.
  - done.
  - by vm_compute.
  - apply Forall_singleton. exists "1.5". by vm_compute.
  - by vm_compute.
Defined.

(** X21.  A [performanceMetrics] object without [_values] is an error,
    not an absence: the loop over [None] raises [TypeError].  Only a
    missing or null [performanceMetrics] is passed over. *)
Theorem render_log_metrics_without_values (doc : json) (h : list json)
    (pm : gmap string json) :
  log_header doc [] = inr h →
  py_get doc "performanceMetrics" = inr (JObj pm) →
  pm !! "_values" = None →
  render_log doc = inl TypeError.
Proof.
  intros Hh Hpm Hv. unfold render_log.
  rewrite collect_log_output_header, Hh. simpl. rewrite Hpm. simpl.
  by rewrite Hv.
Qed.

Lemma render_log_metrics_without_values_witness :
  render_log (JObj (<[ "identifier" := sample_value "T/test()" ]>
                    {[ "performanceMetrics" := JObj ∅ ]}))
  = inl TypeError.
Proof.
  apply (render_log_metrics_without_values
           (JObj (<[ "identifier" := sample_value "T/test()" ]>
                  {[ "performanceMetrics" := JObj ∅ ]}))
           [JStr "T/test()"] ∅).
  - by vm_compute.
  - by vm_compute.
  - done.
Defined.


(** ** The log files of Xcode 10 and below *)

Lemma walk_files_app (root : string) (files result : list string) :
  walk_files root files result = (result ++ walk_files root files [])%list.
Proof.
  revert result. induction files as [|file files IH]; intros result; simpl.
  - by rewrite app_nil_r.
  - destruct (endswith ".txt" file); [|apply IH].
    rewrite (IH (result ++ [path_join root file])%list), (IH [path_join root file]).
    by rewrite <- app_assoc.
Qed.

Lemma walk_loop_app (triples : list (string * list string * list string))
    (result : list string) :
  walk_loop triples result = (result ++ walk_loop triples [])%list.
Proof.
  revert result. induction triples as [|[[root dirs] files] triples IH];
    intros result; simpl.
  - by rewrite app_nil_r.
  - rewrite (IH (walk_files root files result)), (IH (walk_files root files [])).
    by rewrite (walk_files_app root files result), <- app_assoc.
Qed.

Lemma elem_of_walk_files (root : string) (files : list string) (f : string) :
  f ∈ walk_files root files [] ↔
  ∃ file, file ∈ files ∧ endswith ".txt" file = true ∧ f = path_join root file.
Proof.
  induction files as [|x files IH]; simpl.
  - split; [by intros H%elem_of_nil|]. by intros (file & H%elem_of_nil & _).
  - destruct (endswith ".txt" x) eqn:Hx.
    + rewrite walk_files_app, elem_of_app, list_elem_of_singleton, IH. split.
      * intros [-> | (file & Hf & He & ->)]; [exists x | exists file];
          (split; [by constructor | done]).
      * intros (file & Hf & He & ->).
        apply elem_of_cons in Hf as [-> | Hf]; [by left|]. right. by exists file.
    + rewrite IH. split.
      * intros (file & Hf & He & ->). exists file. split; [by right | done].
      * intros (file & Hf & He & ->).
        apply elem_of_cons in Hf as [-> | Hf]; [congruence|]. by exists file.
Qed.

Lemma elem_of_walk_loop (triples : list (string * list string * list string))
    (f : string) :
  f ∈ walk_loop triples [] ↔ txt_file_of triples f.
Proof.
  unfold txt_file_of.
  induction triples as [|[[root dirs] files] triples IH]; simpl.
  - split; [by intros H%elem_of_nil|]. by intros (? & ? & ? & ? & H%elem_of_nil & _).
  - rewrite walk_loop_app, elem_of_app, elem_of_walk_files, IH. split.
    + intros [(file & Hf & He & ->) | (r & d & fl & file & Ht & Hf & He & ->)].
      * exists root, dirs, files, file. split; [by left | done].
      * exists r, d, fl, file. split; [by right | done].
    + intros (r & d & fl & file & Ht & Hf & He & ->).
      apply elem_of_cons in Ht as [[= -> -> ->] | Ht].
      * left. by exists file.
      * right. by exists r, d, fl, file.
Qed.

Lemma insert_key_perm (x : Z * string) (l : list (Z * string)) :
  insert_key x l ≡ₚ x :: l.
Proof.
  induction l as [|y l IH]; simpl; [done|].
  destruct (y.1 <=? x.1); [|done]. rewrite IH. apply Permutation_swap.
Qed.

Lemma sort_fold_perm (l acc : list (Z * string)) :
  fold_left (λ acc x, insert_key x acc) l acc ≡ₚ (acc ++ l)%list.
Proof.
  revert acc. induction l as [|x l IH]; intros acc; simpl.
  - by rewrite app_nil_r.
  - rewrite IH, insert_key_perm. apply Permutation_middle.
Qed.

Lemma insert_key_sorted (x : Z * string) (l : list (Z * string)) :
  StronglySorted (λ a b, a.1 <= b.1) l →
  StronglySorted (λ a b, a.1 <= b.1) (insert_key x l).
Proof.
  induction 1 as [|y l Hl IH Hy]; simpl.
  - by repeat constructor.
  - destruct (y.1 <=? x.1) eqn:Hle.
    + apply Z.leb_le in Hle. constructor; [done|].
      rewrite insert_key_perm. by constructor.
    + apply Z.leb_gt in Hle. constructor; [by constructor|].
      constructor; [lia|]. eapply Forall_impl; [exact Hy|]. simpl. intros z Hz. lia.
Qed.

Lemma sort_fold_sorted (l acc : list (Z * string)) :
  StronglySorted (λ a b, a.1 <= b.1) acc →
  StronglySorted (λ a b, a.1 <= b.1) (fold_left (λ acc x, insert_key x acc) l acc).
Proof.
  revert acc. induction l as [|x l IH]; intros acc Hacc; simpl; [done|].
  by apply IH, insert_key_sorted.
Qed.

Lemma insert_key_stable (k : Z) (x : Z * string) (l : list (Z * string)) :
  StronglySorted (λ a b, a.1 <= b.1) l →
  List.filter (λ y, y.1 =? k) (insert_key x l)
  = (List.filter (λ y, y.1 =? k) l ++ List.filter (λ y, y.1 =? k) [x])%list.
Proof.
  induction 1 as [|y l Hl IH Hy]; [done|].
  cbn [insert_key]. destruct (y.1 <=? x.1) eqn:Hle.
  - cbn [List.filter] in *. destruct (y.1 =? k); [|done]. by rewrite IH.
  - apply Z.leb_gt in Hle. cbn [List.filter].
    destruct (x.1 =? k) eqn:Hx; [|by rewrite app_nil_r].
    apply Z.eqb_eq in Hx.
    rewrite (proj2 (Z.eqb_neq y.1 k)) by lia.
    assert (List.filter (λ y0, y0.1 =? k) l = []) as ->; [|done].
    clear IH Hl. induction Hy as [|z l Hz _ IH]; [done|].
    cbn [List.filter]. by rewrite (proj2 (Z.eqb_neq z.1 k)) by lia.
Qed.

Lemma filter_key_app (k : Z) (a b : list (Z * string)) :
  List.filter (λ y, y.1 =? k) (a ++ b)
  = (List.filter (λ y, y.1 =? k) a ++ List.filter (λ y, y.1 =? k) b)%list.
Proof.
  induction a as [|x a IH]; [done|].
  rewrite <- app_comm_cons. cbn [List.filter]. destruct (x.1 =? k); [|done].
  by rewrite IH.
Qed.

Lemma sort_fold_stable (k : Z) (l acc : list (Z * string)) :
  StronglySorted (λ a b, a.1 <= b.1) acc →
  List.filter (λ y, y.1 =? k) (fold_left (λ acc x, insert_key x acc) l acc)
  = (List.filter (λ y, y.1 =? k) acc ++ List.filter (λ y, y.1 =? k) l)%list.
Proof.
  revert acc. induction l as [|x l IH]; intros acc Hacc; simpl fold_left.
  - by rewrite app_nil_r.
  - rewrite IH by (by apply insert_key_sorted).
    rewrite insert_key_stable by done.
    rewrite <- app_assoc. f_equal.
    by rewrite <- filter_key_app.
Qed.

Section Keyed.

Variable fs : tree.

Lemma mapM_keyed (l : list string) (keys : list Z) :
  mapM (st_ctime fs) l = inr keys →
  (zip_lists keys l).*2 = l ∧ keyed fs (zip_lists keys l).
Proof.
  revert keys. induction l as [|f l IH]; intros keys H; simpl in H.
  - injection H as <-. split; [done | constructor].
  - destruct (st_ctime fs f) as [e|k] eqn:Hk; simpl in H; [done|].
    destruct (mapM (st_ctime fs) l) as [e|ks] eqn:Hks; simpl in H; [done|].
    injection H as <-. destruct (IH ks eq_refl) as [H1 H2]. split.
    + change ((zip_lists (k :: ks) (f :: l)).*2) with (f :: (zip_lists ks l).*2).
      by rewrite H1.
    + change (zip_lists (k :: ks) (f :: l)) with ((k, f) :: zip_lists ks l).
      by constructor.
Qed.

Lemma keyed_sorted (ps : list (Z * string)) :
  keyed fs ps → StronglySorted (λ a b, a.1 <= b.1) ps →
  StronglySorted (ctime_le fs) ps.*2.
Proof.
  intros Hk Hs. induction Hs as [|p ps Hs IH Hp]; simpl; [constructor|].
  apply Forall_cons in Hk as [Hkp Hk]. constructor; [by apply IH|].
  apply Forall_fmap. apply Forall_forall. intros q Hq.
  exists p.1, q.1. split; [done|]. split.
  - by apply (proj1 (Forall_forall _ _) Hk).
  - by apply (proj1 (Forall_forall _ _) Hp).
Qed.

Lemma keyed_filter (t : Z) (ps : list (Z * string)) :
  keyed fs ps →
  List.filter (ctime_is fs t) ps.*2 = (List.filter (λ y, y.1 =? t) ps).*2.
Proof.
  induction 1 as [|p ps Hp _ IH]; [done|].
  rewrite fmap_cons. cbn [List.filter]. unfold ctime_is at 1. rewrite Hp.
  destruct (p.1 =? t); [rewrite fmap_cons|]; by rewrite IH.
Qed.

End Keyed.

(** X22.  When [find_legacy_log_files] returns, its result holds the
    files of the walk that end in [.txt], each once for each time the
    walk yields it, in the order of their creation times; files of the
    same creation time keep the order of the walk. *)
Theorem find_legacy_log_files_sorted (fs : tree) (xcresult_path : string)
    (r : list string) :
  find_legacy_log_files fs xcresult_path = inr r →
  r ≡ₚ walk_loop (walk fs xcresult_path) [] ∧
  (∀ f, f ∈ r ↔ txt_file_of (walk fs xcresult_path) f) ∧
  StronglySorted (ctime_le fs) r ∧
  ∀ t, List.filter (ctime_is fs t) r
       = List.filter (ctime_is fs t) (walk_loop (walk fs xcresult_path) []).
Proof.
  unfold find_legacy_log_files. intros H.
  destruct (mapM (st_ctime fs) (walk_loop (walk fs xcresult_path) []))
    as [e|keys] eqn:Hkeys; simpl in H; [done|].
  injection H as <-.
  destruct (mapM_keyed fs _ _ Hkeys) as [Hsnd Hkeyed].
  assert (sort_keyed (zip_lists keys (walk_loop (walk fs xcresult_path) []))
          ≡ₚ zip_lists keys (walk_loop (walk fs xcresult_path) [])) as Hperm.
  { unfold sort_keyed. by rewrite sort_fold_perm. }
  assert (keyed fs (sort_keyed (zip_lists keys (walk_loop (walk fs xcresult_path) []))))
    as Hkeyed'.
  { unfold keyed. by rewrite Hperm. }
  assert ((sort_keyed (zip_lists keys (walk_loop (walk fs xcresult_path) []))).*2
          ≡ₚ walk_loop (walk fs xcresult_path) []) as Hperm2.
  { rewrite Hperm. by rewrite Hsnd. }
  split; [done|]. split; [|split].
  - intros f. rewrite Hperm2. apply elem_of_walk_loop.
  - apply keyed_sorted; [done|]. apply sort_fold_sorted. constructor.
  - intros t. rewrite (keyed_filter fs t _ Hkeyed').
    unfold sort_keyed. rewrite sort_fold_stable by constructor.
    change (List.filter (λ y : Z * string, y.1 =? t) []) with (@nil (Z * string)).
    rewrite app_nil_l, <- (keyed_filter fs t _ Hkeyed). by rewrite Hsnd.
Qed.

Lemma find_legacy_log_files_sorted_witness :
  ["r.xcresult/logs/a.txt"; "r.xcresult/logs/b.txt"; "r.xcresult/logs/d.txt"]
    ≡ₚ walk_loop (walk legacy_tree "r.xcresult") [] ∧
  (∀ f, f ∈ ["r.xcresult/logs/a.txt"; "r.xcresult/logs/b.txt"; "r.xcresult/logs/d.txt"]
        ↔ txt_file_of (walk legacy_tree "r.xcresult") f) ∧
  StronglySorted (ctime_le legacy_tree)
    ["r.xcresult/logs/a.txt"; "r.xcresult/logs/b.txt"; "r.xcresult/logs/d.txt"] ∧
  ∀ t, List.filter (ctime_is legacy_tree t)
         ["r.xcresult/logs/a.txt"; "r.xcresult/logs/b.txt"; "r.xcresult/logs/d.txt"]
       = List.filter (ctime_is legacy_tree t) (walk_loop (walk legacy_tree "r.xcresult") []).
Proof.
  apply (find_legacy_log_files_sorted legacy_tree "r.xcresult").
  by vm_compute.
Defined.

(** X23.  The creation time is read of the text files only, in the
    order of the walk, and the first that cannot be read ends the call
    with its exception: no list is returned without the file. *)
Theorem find_legacy_log_files_stat_failure (fs : tree) (xcresult_path : string)
    (good rest : list string) (f : string) (e : exn) :
  walk_loop (walk fs xcresult_path) [] = (good ++ f :: rest)%list →
  Forall (λ x, ∃ t, st_ctime fs x = inr t) good →
  st_ctime fs f = inl e →
  find_legacy_log_files fs xcresult_path = inl e.
Proof.
  intros Hw Hgood Hf. unfold find_legacy_log_files.
  by rewrite Hw, (mapM_failure _ _ _ _ _ Hgood Hf).
Qed.

Lemma find_legacy_log_files_stat_failure_witness :
  find_legacy_log_files
    {| walk := λ p, [(p, [], ["a.txt"; "gone.txt"; "b.txt"])];
       st_ctime := λ f, if bool_decide (f = "r/gone.txt") then raise OSError else ret 1 |}
    "r"
  = inl OSError.
Proof.
  apply (find_legacy_log_files_stat_failure
           {| walk := λ p, [(p, [], ["a.txt"; "gone.txt"; "b.txt"])];
              st_ctime := λ f, if bool_decide (f = "r/gone.txt") then raise OSError else ret 1 |}
           "r" ["r/a.txt"] ["r/b.txt"] "r/gone.txt" OSError).
  - by vm_compute.
  - apply Forall_singleton. exists 1. by vm_compute.
  - by vm_compute.
Defined.
